(** * The instance relocation command ([incus move]), embedded from
    [cmdMove.Run] and [cmdMove.moveInstance].

    The development has three layers:
    - [Go]: the few pieces of the Go runtime and standard library the
      command relies on (error values, nil-able slices and maps,
      [strings.Cut], [maps.Copy]);
    - [Client]: the collaborators the command calls through the connection
      provider (servers, operations, the copy and delete sub-commands),
      and the small control monad that records every call in a trace;
    - [Move]: the command itself, followed by the properties proved of it.

    Beside the command stand [Protocol], the order in which a run may make
    its calls, and [Lxc], the conversion of the network and storage
    configuration of an LXC container ([convertNetworkConfig],
    [convertStorageConfig], [getRootfs]). *)

From stdpp Require Import base option list strings gmap fin_maps pretty.

Local Open Scope string_scope.

(** ** Go runtime values *)

Module Go.

(** An [error] value.  [errors.New] and the two shapes of [fmt.Errorf] used
    by the command: wrapping with [%w] and quoting a string with [%q]. *)
Inductive error : Type :=
| errors_New (msg : string)
| Errorf_w (prefix : string) (inner : error)
| Errorf_q (prefix : string) (arg : string).

(** [errors.Unwrap]: only [%w] produces an error with an inner one. *)
Definition Unwrap (e : error) : option error :=
  match e with
  | Errorf_w _ inner => Some inner
  | _ => None
  end.

(** The double quote character, as a string. *)
Definition quote : string := String (Ascii.ascii_of_nat 34) EmptyString.

(** [err.Error()], without the escaping [%q] performs inside the quotes. *)
Fixpoint Error (e : error) : string :=
  match e with
  | errors_New msg => msg
  | Errorf_w prefix inner => prefix ++ Error inner
  | Errorf_q prefix arg => prefix ++ quote ++ arg ++ quote
  end.

Fixpoint depth (e : error) : nat :=
  match e with
  | Errorf_w _ inner => S (depth inner)
  | _ => 0
  end.

(** A slice is [nil] or holds elements; [len] of [nil] is 0. *)
Inductive slice (A : Type) : Type :=
| nilslice
| mkslice (elems : list A).
Arguments nilslice {A}.
Arguments mkslice {A} elems.

Definition elems {A} (s : slice A) : list A :=
  match s with
  | nilslice => []
  | mkslice l => l
  end.

Definition len {A} (s : slice A) : nat := length (elems s).

Definition is_nil {A} (s : slice A) : bool :=
  match s with
  | nilslice => true
  | mkslice _ => false
  end.

(** A map with string keys is [nil] or holds entries.  Reading a [nil] map
    gives the zero value, writing to it is a run-time panic. *)
Inductive gomap (V : Type) : Type :=
| nilmap
| mkmap (g : gmap string V).
Arguments nilmap {V}.
Arguments mkmap {V} g.

Definition entries {V} (m : gomap V) : gmap string V :=
  match m with
  | nilmap => ∅
  | mkmap g => g
  end.

(** [m[k]] with [zero] the zero value of the element type. *)
Definition index {V} (zero : V) (m : gomap V) (k : string) : V :=
  default zero (entries m !! k).

(** [m[k] = v]; [None] is the panic "assignment to entry in nil map". *)
Definition assign {V} (m : gomap V) (k : string) (v : V) : option (gomap V) :=
  match m with
  | nilmap => None
  | mkmap g => Some (mkmap (<[k := v]> g))
  end.

(** The body of [maps.Copy] over the entries of the source in the order
    [kvs] in which the runtime happens to enumerate them:
    [for k, v := range src { dst[k] = v }]. *)
Definition copy_entries {V} (kvs : list (string * V)) (dst : gomap V)
  : option (gomap V) :=
  foldl (λ acc kv, m ← acc; assign m kv.1 kv.2) (Some dst) kvs.

(** [maps.Copy(dst, src)]: the destination after the call, [None] when the
    call panics. *)
Definition maps_Copy {V} (dst src : gomap V) : option (gomap V) :=
  copy_entries (map_to_list (entries src)) dst.

(** [strings.Cut(s, sep)]: split around the first occurrence of [sep]. *)
Definition strings_Cut (s sep : string) : string * string * bool :=
  match String.index 0 sep s with
  | Some i =>
      (String.substring 0 i s,
       String.substring (i + String.length sep)
                        (String.length s - (i + String.length sep)) s,
       true)
  | None => (s, "", false)
  end.

End Go.

Import Go.

(** ** The collaborators of the command and the control monad *)

Module Client.

(** [api.InstancePost], with the fields the command sets. *)
Record InstancePost : Type := mkInstancePost {
  Name : string;
  Migration : bool;
  InstanceOnly : bool;
  Pool : string;
  Project : string;
  Live : bool;
  Profiles : slice string;
  Config : gomap string;
  Devices : gomap (gomap string)
}.

(** [api.InstancePost{Name: name}]: every other field has its zero value. *)
Definition InstancePost_named (name : string) : InstancePost :=
  {| Name := name; Migration := false; InstanceOnly := false; Pool := "";
     Project := ""; Live := false; Profiles := nilslice; Config := nilmap;
     Devices := nilmap |}.

(** [api.Instance], with the field the command reads. *)
Record Instance : Type := mkInstance {
  ExpandedDevices : gomap (gomap string)
}.

(** An operation handle: what [op.Wait()], [op.AddHandler(...)] and
    [cli.CancelableWait(op, ...)] return for it. *)
Record Operation : Type := mkOperation {
  Wait : option error;
  AddHandler : option error;
  CancelableWait : option error
}.

(** What a server answers to the requests of the command, once a cluster
    member is (or is not) targeted. *)
Record Backend : Type := mkBackend {
  be_GetInstance : string → error + Instance;
  be_RenameInstance : string → InstancePost → error + Operation;
  be_MigrateInstance : string → InstancePost → error + Operation
}.

(** The [incus.InstanceServer] handle of a connection.  [HasExtension] and
    [IsClustered] read the server information cached in the handle;
    [UseTarget] returns the handle with another target. *)
Record InstanceServer : Type := mkInstanceServer {
  HasExtension : string → bool;
  IsClustered : bool;
  target : string;
  backend : string → Backend
}.

Definition UseTarget (s : InstanceServer) (member : string) : InstanceServer :=
  {| HasExtension := HasExtension s; IsClustered := IsClustered s;
     target := member; backend := backend s |}.

Definition GetInstance (s : InstanceServer) (name : string)
  : error + Instance :=
  be_GetInstance (backend s (target s)) name.

Definition RenameInstance (s : InstanceServer) (name : string)
    (post : InstancePost) : error + Operation :=
  be_RenameInstance (backend s (target s)) name post.

Definition MigrateInstance (s : InstanceServer) (name : string)
    (post : InstancePost) : error + Operation :=
  be_MigrateInstance (backend s (target s)) name post.

(** The flags [cmdMove.Run] sets on the [cmdCopy] it builds, and the
    arguments of its call of [copyInstance]. *)
Record cmdCopy : Type := mkCmdCopy {
  cpy_flagTarget : string;
  cpy_flagTargetProject : string;
  cpy_flagConfig : slice string;
  cpy_flagDevice : slice string;
  cpy_flagProfile : slice string;
  cpy_flagNoProfiles : bool;
  cpy_flagAllowInconsistent : bool
}.

Record CopyCall : Type := mkCopyCall {
  cc_cmd : cmdCopy;
  cc_sourceResource : string;
  cc_destResource : string;
  cc_keepVolatile : bool;
  cc_ephemeral : Z;
  cc_stateful : bool;
  cc_instanceOnly : bool;
  cc_mode : string;
  cc_pool : string;
  cc_move : bool
}.

Record cmdDelete : Type := mkCmdDelete {
  del_flagForce : bool;
  del_flagForceProtected : bool
}.

(** Everything the command consumes: the client configuration
    ([checkArgs], [ParseRemote], [GetInstanceServer]), the helper
    [parseDeviceOverrides] and the two sub-commands it delegates to.
    None of them is defined in the files of the command; each is a field
    here and every property below holds whatever they answer. *)
Record World : Type := mkWorld {
  checkArgs : list string → nat → nat → bool * option error;
  ParseRemote : string → error + (string * string);
  GetInstanceServer : string → error + InstanceServer;
  parseDeviceOverrides : slice string → error + gomap (gomap string);
  copyInstance : CopyCall → option error;
  deleteRun : cmdDelete → list string → option error
}.

(** The calls that leave the command, in the order they are made. *)
Inductive event : Type :=
| EConnect (remote : string)
| ERename (member name : string) (post : InstancePost)
| EWait
| EGetInstance (member name : string)
| EMigrate (member name : string) (req : InstancePost)
| EAddHandler
| ECancelableWait
| EProgressDone
| ECopy (call : CopyCall)
| EDelete (del : cmdDelete) (args : list string).

(** One step of a function body: it goes on with a value, returns from the
    function, or panics. *)
Inductive step (R A : Type) : Type :=
| Next (a : A)
| Return (r : R)
| Panic.
Arguments Next {R A} a.
Arguments Return {R A} r.
Arguments Panic {R A}.

(** A function body returning [R]: the calls made so far and the step
    reached. *)
Definition M (R A : Type) : Type := list event * step R A.

Definition ret {R A} (a : A) : M R A := ([], Next a).

Definition bind {R A B} (m : M R A) (k : A → M R B) : M R B :=
  match m with
  | (tr, Next a) => let '(tr', s) := k a in ((tr ++ tr')%list, s)
  | (tr, Return r) => (tr, Return r)
  | (tr, Panic) => (tr, Panic)
  end.

#[global] Instance M_ret {R} : MRet (M R) := λ A, ret.
#[global] Instance M_bind {R} : MBind (M R) := λ A B k m, bind m k.

(** [return r] *)
Definition retn {R A} (r : R) : M R A := ([], Return r).

Definition panic {R A} : M R A := ([], Panic).

(** A call that leaves the command: it is recorded and its answer goes on. *)
Definition rpc {R A} (ev : event) (answer : A) : M R A := ([ev], Next answer).

(** [if cond { body }] *)
Definition when {R} (cond : bool) (body : M R unit) : M R unit :=
  if cond then body else ret tt.

(** [x, err := f(); if err != nil { return err }] *)
Definition check {A} (m : M (option error) (error + A)) : M (option error) A :=
  x ← m;
  match x with
  | inl err => retn (Some err)
  | inr a => ret a
  end.

(** [x, err := f(); if err != nil { return fmt.Errorf(prefix + "%w", err) }] *)
Definition check_wrap {A} (prefix : string)
    (m : M (option error) (error + A)) : M (option error) A :=
  x ← m;
  match x with
  | inl err => retn (Some (Errorf_w prefix err))
  | inr a => ret a
  end.

(** A run-time operation that may panic. *)
Definition or_panic {R A} (x : option A) : M R A :=
  match x with
  | Some a => ret a
  | None => panic
  end.

(** [args[i]] *)
Definition at_index {R} (args : list string) (i : nat) : M R string :=
  or_panic (args !! i).

(** How a call of a function ends. *)
Inductive outcome (R : Type) : Type :=
| Returned (r : R)
| Panicked.
Arguments Returned {R} r.
Arguments Panicked {R}.

Definition run {R} (body : M R R) : list event * outcome R :=
  match body with
  | (tr, Next r) => (tr, Returned r)
  | (tr, Return r) => (tr, Returned r)
  | (tr, Panic) => (tr, Panicked)
  end.

(** A call of a function (or closure) with body [body] from another body. *)
Definition invoke {R R'} (body : M R' R') : M R R' :=
  match run body with
  | (tr, Returned r) => (tr, Next r)
  | (tr, Panicked) => (tr, Panic)
  end.

End Client.

Import Client.

(** ** The command *)

Module Move.

Record cmdMove : Type := mkCmdMove {
  flagQuiet : bool;
  flagNoProfiles : bool;
  flagProfile : slice string;
  flagConfig : slice string;
  flagInstanceOnly : bool;
  flagDevice : slice string;
  flagMode : string;
  flagStateless : bool;
  flagStorage : string;
  flagTarget : string;
  flagTargetProject : string;
  flagAllowInconsistent : bool
}.

(** Default migration mode when moving an instance. *)
Definition moveDefaultMode : string := "pull".

(** [args[:n]] *)
Definition slice_to {R} (args : list string) (n : nat) : M R (list string) :=
  if bool_decide (n ≤ length args)%nat then ret (take n args) else panic.

(** The loop filling [req.Config] in [moveInstance]. *)
Fixpoint parseConfig (flag : list string) (config : gmap string string)
  : error + gmap string string :=
  match flag with
  | [] => inr config
  | entry :: rest =>
      let '(key, value, found) := strings_Cut entry "=" in
      if negb found then inl (Errorf_q "Bad key=value pair: " entry)
      else parseConfig rest (<[key := value]> config)
  end.

(** One turn of the loop filling [req.Devices] in [moveInstance]:
    [fullDev := inst.ExpandedDevices[devName]; maps.Copy(fullDev, dev);
     req.Devices[devName] = fullDev].
    [maps.Copy] writes into the map held by [inst]; the loop visits every
    device name once and [inst] is not read after the loop, so only the
    staged map is kept here. *)
Definition stageDevice (inst : Instance) (devices : gomap (gomap string))
    (devName : string) (dev : gomap string) : option (gomap (gomap string)) :=
  let fullDev := index nilmap (ExpandedDevices inst) devName in
  fullDev ← maps_Copy fullDev dev;
  assign devices devName fullDev.

(** The loop over the overrides, in the order [kvs] in which the runtime
    enumerates [deviceMap]. *)
Definition stageDevices (inst : Instance) (kvs : list (string * gomap string))
    (devices : gomap (gomap string)) : option (gomap (gomap string)) :=
  foldl (λ acc kv, devices ← acc; stageDevice inst devices kv.1 kv.2)
        (Some devices) kvs.

(** [cmdMove.moveInstance]: move an instance between pools and projects
    using the special POST /instances/<name> API. *)
Definition moveInstance (w : World) (c : cmdMove)
    (sourceResource destResource : string) (stateful : bool)
  : M (option error) (option error) :=
  (* Parse the source. *)
  '(sourceRemote, sourceName) ← check (ret (ParseRemote w sourceResource));
  (* Parse the destination. *)
  '(_, destName) ← check (ret (ParseRemote w destResource));
  (* Make sure we have an instance or snapshot name. *)
  _ ← when (bool_decide (sourceName = ""))
        (retn (Some (errors_New "You must specify a source instance name")));
  (* The destination name is optional. *)
  let destName := if bool_decide (destName = "") then sourceName else destName in
  (* Connect to the source host. *)
  source ← check_wrap "Failed to connect to cluster member: "
             (rpc (EConnect sourceRemote) (GetInstanceServer w sourceRemote));
  _ ← when (negb (IsClustered source) && bool_decide (flagTarget c ≠ ""))
        (retn (Some (errors_New "--target can only be used with clusters")));
  (* Set the target if specified. *)
  let source :=
    if bool_decide (flagTarget c ≠ "") then UseTarget source (flagTarget c)
    else source in
  (* Pass the new pool to the migration API. *)
  let req :=
    {| Name := destName; Migration := true;
       InstanceOnly := flagInstanceOnly c; Pool := flagStorage c;
       Project := flagTargetProject c; Live := stateful;
       Profiles := nilslice; Config := nilmap; Devices := nilmap |} in
  (* Override profiles. *)
  let profiles : option (slice string) :=
    if bool_decide (0 < len (flagProfile c))%nat then Some (flagProfile c)
    else if flagNoProfiles c then Some (mkslice [])
    else None in
  let reqProfiles :=
    match profiles with
    | Some p => p
    | None => Profiles req
    end in
  (* Override config. *)
  reqConfig ←
    (if bool_decide (0 < len (flagConfig c))%nat then
       config ← check (ret (parseConfig (elems (flagConfig c)) ∅));
       ret (mkmap config)
     else ret (Config req));
  (* Override devices. *)
  reqDevices ←
    (if bool_decide (0 < len (flagDevice c))%nat then
       (* Parse the overrides. *)
       deviceMap ← check (ret (parseDeviceOverrides w (flagDevice c)));
       (* Fetch the current instance. *)
       inst ← check (rpc (EGetInstance (target source) sourceName)
                         (GetInstance source sourceName));
       or_panic (stageDevices inst (map_to_list (entries deviceMap)) (mkmap ∅))
     else ret (Devices req));
  let req :=
    {| Name := Name req; Migration := Migration req;
       InstanceOnly := InstanceOnly req; Pool := Pool req;
       Project := Project req; Live := Live req;
       Profiles := reqProfiles; Config := reqConfig; Devices := reqDevices |} in
  (* Move the instance. *)
  op ← check_wrap "Migration API failure: "
         (rpc (EMigrate (target source) sourceName req)
              (MigrateInstance source sourceName req));
  (* Watch the background operation. *)
  r ← rpc EAddHandler (AddHandler op);
  match r with
  | Some err => _ ← rpc EProgressDone tt; retn (Some err)
  | None =>
      (* Wait for the move to complete. *)
      r ← rpc ECancelableWait (CancelableWait op);
      match r with
      | Some err =>
          _ ← rpc EProgressDone tt;
          retn (Some (Errorf_w "Migration operation failure: " err))
      | None => _ ← rpc EProgressDone tt; retn None
      end
  end.

(** The closure [isServerSide] of [Run]. *)
Definition isServerSide (w : World) (c : cmdMove)
    (sourceRemote destRemote : string) : M bool bool :=
  (* Check if same source and destination. *)
  _ ← when (bool_decide (sourceRemote ≠ destRemote)) (retn false);
  (* Check if asked for specific client mode. *)
  _ ← when (bool_decide (flagMode c ≠ moveDefaultMode)) (retn false);
  (* Connect to the server. *)
  r ← rpc (EConnect sourceRemote) (GetInstanceServer w sourceRemote);
  match r with
  | inl _ => retn false
  | inr source =>
      (* Check if override is requested with a server lacking support. *)
      _ ← when (negb (HasExtension source "instance_move_config"))
            (_ ← when (bool_decide (0 < len (flagConfig c))%nat) (retn false);
             _ ← when (bool_decide (0 < len (flagDevice c))%nat) (retn false);
             when (bool_decide (0 < len (flagProfile c))%nat) (retn false));
      (* Check if server supports moving pools. *)
      _ ← when (bool_decide (flagStorage c ≠ "")
                && negb (HasExtension source "instance_pool_move"))
            (retn false);
      (* Check if server supports moving projects. *)
      _ ← when (bool_decide (flagTargetProject c ≠ "")
                && negb (HasExtension source "instance_project_move"))
            (retn false);
      retn true
  end.

(** The end of [Run], reached when the move is neither a rename nor done
    by the server: a copy followed by a delete. *)
Definition copyThenDelete (w : World) (c : cmdMove) (args : list string)
    (mode sourceResource destResource : string) (stateful : bool)
  : M (option error) (option error) :=
  let cpy :=
    {| cpy_flagTarget := flagTarget c;
       cpy_flagTargetProject := flagTargetProject c;
       cpy_flagConfig := flagConfig c;
       cpy_flagDevice := flagDevice c;
       cpy_flagProfile := flagProfile c;
       cpy_flagNoProfiles := flagNoProfiles c;
       cpy_flagAllowInconsistent := flagAllowInconsistent c |} in
  let instanceOnly := flagInstanceOnly c in
  (* A move is just a copy followed by a delete; however, we want to
     keep the volatile entries around since we are moving the instance. *)
  let call :=
    {| cc_cmd := cpy; cc_sourceResource := sourceResource;
       cc_destResource := destResource; cc_keepVolatile := true;
       cc_ephemeral := (-1)%Z; cc_stateful := stateful;
       cc_instanceOnly := instanceOnly; cc_mode := mode;
       cc_pool := flagStorage c; cc_move := true |} in
  err ← rpc (ECopy call) (copyInstance w call);
  match err with
  | Some err => retn (Some err)
  | None =>
      let del := {| del_flagForce := true; del_flagForceProtected := true |} in
      delArgs ← slice_to args 1;
      err ← rpc (EDelete del delArgs) (deleteRun w del delArgs);
      match err with
      | Some err =>
          retn (Some (Errorf_w
                 "Failed to delete original instance after copying it: " err))
      | None => retn None
      end
  end.

(** [Run] up to the parsing of its arguments: the transfer mode and the
    remote and name of the source and of the destination. *)
Definition resolve (w : World) (c : cmdMove) (args : list string)
  : M (option error) (string * (string * string) * (string * string)) :=
  (* Quick checks. *)
  _ ← (if bool_decide (flagTarget c = "") && bool_decide (flagTargetProject c = "")
          && bool_decide (flagStorage c = "")
       then let '(exit, err) := checkArgs w args 2 2 in when exit (retn err)
       else let '(exit, err) := checkArgs w args 1 2 in when exit (retn err));
  (* Parse the mode. *)
  let mode := if bool_decide (flagMode c ≠ "") then flagMode c else moveDefaultMode in
  arg0 ← at_index args 0;
  '(sourceRemote, sourceName) ← check (ret (ParseRemote w arg0));
  '(destRemote, destName) ←
    (if bool_decide (length args = 2) then
       arg1 ← at_index args 1;
       check (ret (ParseRemote w arg1))
     else ret (sourceRemote, ""));
  ret (mode, (sourceRemote, sourceName), (destRemote, destName)).

(** [Run] from the choice of the way to move on. *)
Definition relocate (w : World) (c : cmdMove) (args : list string)
    (mode : string) (src dst : string * string)
  : M (option error) (option error) :=
  let '(sourceRemote, sourceName) := src in
  let '(destRemote, destName) := dst in
  (* As an optimization, if the source and destination are the same, do
     this via a simple rename. *)
  if bool_decide (sourceRemote = destRemote) && bool_decide (flagTarget c = "")
     && bool_decide (flagStorage c = "") && bool_decide (flagTargetProject c = "")
  then
    if negb (is_nil (flagConfig c)) || negb (is_nil (flagDevice c))
       || negb (is_nil (flagProfile c)) || flagNoProfiles c
    then retn (Some (errors_New
                 "Can't override configuration or profiles in local rename"))
    else
      source ← check (rpc (EConnect sourceRemote) (GetInstanceServer w sourceRemote));
      (* Instance rename *)
      op ← check (rpc (ERename (target source) sourceName (InstancePost_named destName))
                      (RenameInstance source sourceName (InstancePost_named destName)));
      r ← rpc EWait (Wait op);
      retn r
  else
    sourceResource ← at_index args 0;
    destResource ←
      (if bool_decide (length args = 2) then at_index args 1
       else ret sourceResource);
    let stateful := negb (flagStateless c) in
    serverSide ← invoke (isServerSide w c sourceRemote destRemote);
    (* Support for server-side move in clusters. *)
    if serverSide : bool then
      r ← invoke (moveInstance w c sourceResource destResource stateful);
      retn r
    else
      r ← invoke (copyThenDelete w c args mode sourceResource destResource stateful);
      retn r.

(** [cmdMove.Run]: the actual command logic. *)
Definition Run (w : World) (c : cmdMove) (args : list string)
  : M (option error) (option error) :=
  '(mode, src, dst) ← resolve w c args;
  relocate w c args mode src dst.

End Move.

Import Move.

(** ** Observations on the calls of a run *)

Module Trace.

Definition is_connect (ev : event) : bool :=
  match ev with EConnect _ => true | _ => false end.

Definition is_rename (ev : event) : bool :=
  match ev with ERename _ _ _ => true | _ => false end.

Definition is_migrate (ev : event) : bool :=
  match ev with EMigrate _ _ _ => true | _ => false end.

Definition is_copy (ev : event) : bool :=
  match ev with ECopy _ => true | _ => false end.

Definition is_delete (ev : event) : bool :=
  match ev with EDelete _ _ => true | _ => false end.

(** The copy calls that [copyInstance] answers with success. *)
Definition is_copy_done (w : World) (ev : event) : bool :=
  match ev with
  | ECopy call => bool_decide (copyInstance w call = None)
  | _ => false
  end.

(** How many calls of a kind a trace holds. *)
Definition calls (kind : event → bool) (tr : list event) : nat :=
  length (List.filter kind tr).

(** The copy and delete calls of a trace, in their order. *)
Definition copy_delete_calls (tr : list event) : list event :=
  List.filter (λ ev, is_copy ev || is_delete ev) tr.

(** The calls [moveInstance] makes. *)
Definition is_move_call (ev : event) : bool :=
  match ev with
  | EConnect _ | EGetInstance _ _ | EMigrate _ _ _
  | EAddHandler | ECancelableWait | EProgressDone => true
  | _ => false
  end.

(** The device as the instance has it, [nil] when it has none of the name. *)
Definition expanded (inst : Instance) (devName : string) : gomap string :=
  index nilmap (ExpandedDevices inst) devName.

(** The error [Run] makes of a failed delete of the source. *)
Definition orphaned (err : error) : error :=
  Errorf_w "Failed to delete original instance after copying it: " err.

(** The kind of an error of [Run]: whether it is the one made of a failed
    delete after a copy. *)
Definition is_orphaned (err : error) : bool :=
  match err with
  | Errorf_w prefix _ =>
      bool_decide (prefix = "Failed to delete original instance after copying it: ")
  | _ => false
  end.

(** The copy and delete calls of a run and its outcome: no such call; a
    copy that failed, whose error is returned; or a copy that succeeded
    followed by one delete, whose failure is returned as [orphaned]. *)
Definition copy_delete_shape (w : World)
    (r : list event * outcome (option error)) : Prop :=
  copy_delete_calls r.1 = []
  ∨ (∃ call err,
       copy_delete_calls r.1 = [ECopy call]
       ∧ copyInstance w call = Some err
       ∧ r.2 = Returned (Some err))
  ∨ (∃ call del delArgs,
       copy_delete_calls r.1 = [ECopy call; EDelete del delArgs]
       ∧ copyInstance w call = None
       ∧ r.2 = Returned (match deleteRun w del delArgs with
                         | Some err => Some (orphaned err)
                         | None => None
                         end)).

(** The request asks for nothing a rename cannot do. *)
Definition plain (c : cmdMove) : bool :=
  is_nil (flagConfig c) && is_nil (flagDevice c) && is_nil (flagProfile c)
  && negb (flagNoProfiles c).

(** Source and destination are on one connection and no cluster member,
    pool or project is targeted: the test at the head of the rename branch
    of [Run]. *)
Definition in_place (c : cmdMove) (sourceRemote destRemote : string) : bool :=
  bool_decide (sourceRemote = destRemote) && bool_decide (flagTarget c = "")
  && bool_decide (flagStorage c = "") && bool_decide (flagTargetProject c = "").

End Trace.

Import Trace.

(** ** A sample installation, for running the command on concrete requests *)

Module Sample.

(** Modelled from the spec: the Endpoint Resolver ([conf.ParseRemote], not
    among the files of the command).  A reference is
    [[<remote>:]<instance>[/<snapshot>]]; without a remote the default one,
    [local], is meant, and a second [:] is a malformed reference. *)
Definition ParseRemote (raw : string) : error + (string * string) :=
  let '(remote, name, found) := strings_Cut raw ":" in
  if negb found then inr ("local", raw)
  else
    let '(_, _, again) := strings_Cut name ":" in
    if again then inl (errors_New "MalformedReference")
    else inr (remote, name).

(** The argument count check of the client: between [lo] and [hi]
    arguments, and help without an error when there is none. *)
Definition checkArgs (args : list string) (lo hi : nat) : bool * option error :=
  if bool_decide (length args < lo)%nat || bool_decide (hi < length args)%nat then
    if bool_decide (length args = 0)%nat then (true, None)
    else (true, Some (errors_New "Invalid number of arguments"))
  else (false, None).

(** One device override, [<device>,<key>=<value>], added to [deviceMap]. *)
Definition parseDeviceOverride (entry : string)
    (deviceMap : gmap string (gomap string))
  : error + gmap string (gomap string) :=
  let '(devName, keyValue, comma) := strings_Cut entry "," in
  let '(key, value, equal) := strings_Cut keyValue "=" in
  if negb comma || negb equal then
    inl (errors_New "Bad device override syntax")
  else
    let dev := entries (index nilmap (mkmap deviceMap) devName) in
    inr (<[devName := mkmap (<[key := value]> dev)]> deviceMap).

Fixpoint parseDeviceOverridesFrom (flag : list string)
    (deviceMap : gmap string (gomap string)) : error + gomap (gomap string) :=
  match flag with
  | [] => inr (mkmap deviceMap)
  | entry :: rest =>
      match parseDeviceOverride entry deviceMap with
      | inl err => inl err
      | inr deviceMap => parseDeviceOverridesFrom rest deviceMap
      end
  end.

Definition parseDeviceOverrides (flag : slice string)
  : error + gomap (gomap string) :=
  parseDeviceOverridesFrom (elems flag) ∅.

Definition done : Operation :=
  {| Wait := None; AddHandler := None; CancelableWait := None |}.

(** An instance with a root disk and one network interface. *)
Definition web1 : Instance :=
  {| ExpandedDevices :=
       mkmap {[ "root" := mkmap {[ "type" := "disk"; "path" := "/";
                                   "pool" := "default" ]};
                "eth0" := mkmap {[ "type" := "nic"; "nictype" := "bridged";
                                   "parent" := "br0" ]} ]} |}.

Definition members : Backend :=
  {| be_GetInstance := λ name,
       if bool_decide (name = "web1") then inr web1
       else inl (errors_New "Instance not found");
     be_RenameInstance := λ _ _, inr done;
     be_MigrateInstance := λ _ _, inr done |}.

(** A standalone server announcing no extension. *)
Definition standalone : InstanceServer :=
  {| HasExtension := λ _, false; IsClustered := false; target := "";
     backend := λ _, members |}.

(** A cluster announcing every extension. *)
Definition cluster : InstanceServer :=
  {| HasExtension := λ _, true; IsClustered := true; target := "";
     backend := λ _, members |}.

(** The installation: the remote [local] is [server], the copy and the
    delete sub-commands answer [copied] and [deleted]. *)
Definition world (server : InstanceServer) (copied deleted : option error)
  : World :=
  {| Client.checkArgs := checkArgs;
     Client.ParseRemote := ParseRemote;
     GetInstanceServer := λ remote,
       if bool_decide (remote = "local") then inr server
       else inl (errors_New "Unreachable");
     Client.parseDeviceOverrides := parseDeviceOverrides;
     copyInstance := λ _, copied;
     deleteRun := λ _ _, deleted |}.

(** [incus move] with no flag. *)
Definition move : cmdMove :=
  {| flagQuiet := false; flagNoProfiles := false; flagProfile := nilslice;
     flagConfig := nilslice; flagInstanceOnly := false;
     flagDevice := nilslice; flagMode := moveDefaultMode;
     flagStateless := false; flagStorage := ""; flagTarget := "";
     flagTargetProject := ""; flagAllowInconsistent := false |}.

(** [incus move --config limits.cpu=2] *)
Definition move_config : cmdMove :=
  {| flagQuiet := false; flagNoProfiles := false; flagProfile := nilslice;
     flagConfig := mkslice ["limits.cpu=2"]; flagInstanceOnly := false;
     flagDevice := nilslice; flagMode := moveDefaultMode;
     flagStateless := false; flagStorage := ""; flagTarget := "";
     flagTargetProject := ""; flagAllowInconsistent := false |}.

(** [incus move --target node2 --profile default --no-profiles] *)
Definition move_profiles : cmdMove :=
  {| flagQuiet := false; flagNoProfiles := true;
     flagProfile := mkslice ["default"];
     flagConfig := nilslice; flagInstanceOnly := false;
     flagDevice := nilslice; flagMode := moveDefaultMode;
     flagStateless := false; flagStorage := ""; flagTarget := "node2";
     flagTargetProject := ""; flagAllowInconsistent := false |}.

(** [incus move --target node2 --device <override>] *)
Definition move_device (override : string) : cmdMove :=
  {| flagQuiet := false; flagNoProfiles := false; flagProfile := nilslice;
     flagConfig := nilslice; flagInstanceOnly := false;
     flagDevice := mkslice [override]; flagMode := moveDefaultMode;
     flagStateless := false; flagStorage := ""; flagTarget := "node2";
     flagTargetProject := ""; flagAllowInconsistent := false |}.

(** What [--device eth0,mtu=9000] parses to. *)
Definition mtu_override : gomap (gomap string) :=
  mkmap {[ "eth0" := mkmap {[ "mtu" := "9000" ]} ]}.

(** [incus move --target node2] *)
Definition move_target : cmdMove :=
  {| flagQuiet := false; flagNoProfiles := false; flagProfile := nilslice;
     flagConfig := nilslice; flagInstanceOnly := false;
     flagDevice := nilslice; flagMode := moveDefaultMode;
     flagStateless := false; flagStorage := ""; flagTarget := "node2";
     flagTargetProject := ""; flagAllowInconsistent := false |}.

(** [incus move --mode relay] *)
Definition move_relay : cmdMove :=
  {| flagQuiet := false; flagNoProfiles := false; flagProfile := nilslice;
     flagConfig := nilslice; flagInstanceOnly := false;
     flagDevice := nilslice; flagMode := "relay";
     flagStateless := false; flagStorage := ""; flagTarget := "";
     flagTargetProject := ""; flagAllowInconsistent := false |}.

End Sample.

(** ** The order of the calls of a run *)

Module Protocol.

(** How far a run has got. *)
Inductive phase : Type :=
| Idle | Connected | Renaming | Renamed
| Reconnected | Fetched | Submitted | Watching | Waited | Aborted | Finished
| Copied | Deleted.

(** The calls a run may make next, and where each leads. *)
Definition next (ph : phase) (ev : event) : option phase :=
  match ph, ev with
  | Idle, EConnect _ => Some Connected
  | Idle, ECopy _ => Some Copied
  | Connected, ERename _ _ _ => Some Renaming
  | Connected, EConnect _ => Some Reconnected
  | Connected, ECopy _ => Some Copied
  | Renaming, EWait => Some Renamed
  | Reconnected, EGetInstance _ _ => Some Fetched
  | Reconnected, EMigrate _ _ _ => Some Submitted
  | Fetched, EMigrate _ _ _ => Some Submitted
  | Submitted, EAddHandler => Some Watching
  | Watching, ECancelableWait => Some Waited
  | Watching, EProgressDone => Some Aborted
  | Waited, EProgressDone => Some Finished
  | Copied, EDelete _ _ => Some Deleted
  | _, _ => None
  end.

(** The phase a trace leads to, when every call of it is allowed. *)
Definition follows (ph : phase) (tr : list event) : option phase :=
  foldl (λ acc ev, ph ← acc; next ph ev) (Some ph) tr.

(** A run does not stop while the progress of an operation is shown. *)
Definition settled (ph : phase) : bool :=
  match ph with
  | Watching | Waited => false
  | _ => true
  end.

(** Nothing was started, or what was started was carried through. *)
Definition completed (ph : phase) : bool :=
  match ph with
  | Idle | Renamed | Finished | Deleted => true
  | _ => false
  end.

(** Whether a rename, a migration request or a copy may still come. *)
Definition budget (ph : phase) : nat :=
  match ph with
  | Idle | Connected | Reconnected | Fetched => 1
  | _ => 0
  end.

(** How many connections may still come. *)
Definition connections (ph : phase) : nat :=
  match ph with
  | Idle => 2
  | Connected => 1
  | _ => 0
  end.

(** What holds of the step a body reaches and of the phase its calls lead
    to, from the phase [ph]; false when a call is not allowed. *)
Definition wp {R A} (ph : phase) (m : M R A)
    (Q : step R A → phase → Prop) : Prop :=
  match follows ph m.1 with
  | Some ph' => Q m.2 ph'
  | None => False
  end.

(** How a run of the command may end. *)
Definition ends_well (s : step (option error) (option error)) (ph : phase)
  : Prop :=
  settled ph = true
  ∧ match s with
    | Next None | Return None => completed ph = true
    | _ => True
    end.

End Protocol.

Import Protocol.

(** ** Strings without a given character *)

Import Stdlib.Strings.Ascii.

Module Chars.

(** Whether the character [c] occurs in [s]. *)
Fixpoint has_char (c : ascii) (s : string) : bool :=
  match s with
  | EmptyString => false
  | String x s' => if ascii_dec c x then true else has_char c s'
  end.

(** The key of a [key=value] entry: what [strings.Cut] gives before the
    first [=]. *)
Definition entry_key (entry : string) : string :=
  (strings_Cut entry "=").1.1.

(** Whether an entry has a [=]. *)
Definition entry_found (entry : string) : bool :=
  (strings_Cut entry "=").2.

End Chars.

Import Chars.

(** ** The conversion of LXC containers ([lxc-to-incus]) *)

Module Lxc.

(** [strings.Split(s, sep)] for a separator that is not empty: the
    pieces of [s] between the occurrences of [sep], taken from the left.
    [skip] counts the characters of the separator still to pass, [token]
    is the piece being read. *)
Fixpoint split_at (sep : string) (skip : nat) (token : string) (s : string)
  : list string :=
  match s with
  | EmptyString => [token]
  | String x s' =>
      match skip with
      | S skip' => split_at sep skip' token s'
      | 0 =>
          if String.prefix sep s
          then token :: split_at sep (String.length sep - 1) "" s'
          else split_at sep 0 (token ++ String x "") s'
      end
  end.

Definition strings_Split (s sep : string) : list string :=
  split_at sep 0 "" s.

(** [strings.SplitN(s, sep, 2)] *)
Definition strings_SplitN2 (s sep : string) : list string :=
  let '(before, after, found) := strings_Cut s sep in
  if found then [before; after] else [s].

(** [strings.HasPrefix(s, prefix)] *)
Definition strings_HasPrefix (s prefix : string) : bool :=
  String.prefix prefix s.

(** [strings.TrimPrefix(s, prefix)] *)
Definition strings_TrimPrefix (s prefix : string) : string :=
  if strings_HasPrefix s prefix
  then String.substring (String.length prefix)
         (String.length s - String.length prefix) s
  else s.

(** [slices.Contains(l, x)] *)
Definition slices_Contains (l : list string) (x : string) : bool :=
  bool_decide (x ∈ l).

(** What the conversion reads from the host: the values of a key of an
    LXC configuration ([getConfig], not among the files read here) and
    whether a path exists ([util.PathExists]). *)
Record Host : Type := mkHost {
  getConfig : list string → string → slice string;
  PathExists : string → bool
}.

(** A [liblxc.Container], as far as the network conversion reads it:
    [container.ConfigItem(key)] and [networkGet(container, i, key)]. *)
Record Container : Type := mkContainer {
  ConfigItem : string → list string;
  networkGet : nat → string → gomap string
}.

(** [getRootfs]; [None] is the panic of [value[0]] on a slice that is not
    [nil] and holds nothing. *)
Definition getRootfs (h : Host) (conf : list string)
  : option (error + string) :=
  let value := getConfig h conf "lxc.rootfs.path" in
  let found :=
    if is_nil value then
      let value := getConfig h conf "lxc.rootfs" in
      if is_nil value then None else Some value
    else Some value in
  match found with
  | None => Some (inl (errors_New "Invalid container, missing lxc.rootfs key"))
  | Some value =>
      (* Get the rootfs path *)
      value0 ← elems value !! 0%nat;
      let parts := strings_SplitN2 value0 ":" in
      rootfs ← parts !! (length parts - 1)%nat;
      Some (inr rootfs)
  end.

(** One turn of the loop of [networkDevice] over the keys of the network:
    [None] is the [return nil] of the empty key. *)
Definition convertKey (device : gmap string string) (k v : string)
  : option (gmap string string) :=
  if bool_decide (k = "hwaddr") || bool_decide (k = "mtu")
     || bool_decide (k = "name")
  then Some (<[k := v]> device)
  else if bool_decide (k = "link") then Some (<["parent" := v]> device)
  else if bool_decide (k = "veth_pair") then Some (<["host_name" := v]> device)
  else if bool_decide (k = "") then None
  else Some device.

(** The key of the network a key of the device is taken from. *)
Definition source_key (k : string) : option string :=
  if bool_decide (k = "hwaddr") || bool_decide (k = "mtu")
     || bool_decide (k = "name")
  then Some k
  else if bool_decide (k = "parent") then Some "link"
  else if bool_decide (k = "host_name") then Some "veth_pair"
  else None.

(** The loop, in the order [kvs] in which the runtime enumerates the
    network. *)
Definition convertKeys (kvs : list (string * string))
    (device : gmap string string) : option (gmap string string) :=
  foldl (λ acc kv, device ← acc; convertKey device kv.1 kv.2) (Some device) kvs.

(** The closure [networkDevice] of [convertNetworkConfig], for an
    enumeration [kvs] of [network]. *)
Definition networkDevice_in (kvs : list (string * string))
    (network : gomap string) : gomap string :=
  match network with
  | nilmap => nilmap
  | mkmap _ =>
      let device : gmap string string := {[ "type" := "nic" ]} in
      (* Get the device type *)
      let device := <["nictype" := index "" network "type"]> device in
      (* Convert the configuration *)
      match convertKeys kvs device with
      | None => nilmap
      | Some device =>
          let nictype := default "" (device !! "nictype") in
          if bool_decide (nictype = "veth") then
            if bool_decide (is_Some (device !! "parent"))
            then mkmap (<["nictype" := "bridged"]> device)
            else mkmap (<["nictype" := "p2p"]> device)
          else if bool_decide (nictype = "phys")
          then mkmap (<["nictype" := "physical"]> device)
          else if bool_decide (nictype = "empty") then nilmap
          else mkmap device
      end
  end.

Definition networkDevice (network : gomap string) : gomap string :=
  networkDevice_in (map_to_list (entries network)) network.

(** [len(devices)] *)
Definition maplen {V} (m : gomap V) : nat := size (entries m).

(** The loop of [convertNetworkConfig] over the new keys. *)
Definition convertNet (ct : Container) (devices : gomap (gomap string))
    (i : nat) : option (gomap (gomap string)) :=
  let network := networkGet ct i "lxc.net" in
  match networkDevice network with
  | nilmap => Some devices
  | dev => assign devices ("net" ++ pretty i) dev
  end.

(** The loop over the old keys. *)
Definition convertNetwork (ct : Container) (devices : gomap (gomap string))
    (i : nat) : option (gomap (gomap string)) :=
  let network := networkGet ct i "lxc.network" in
  match networkDevice network with
  | nilmap => Some devices
  | dev => assign devices ("net" ++ pretty (maplen devices)) dev
  end.

(** [convertNetworkConfig]: the devices after the call; it returns no
    error, and [None] is the panic of a write to a [nil] map. *)
Definition convertNetworkConfig (ct : Container)
    (devices : gomap (gomap string)) : option (gomap (gomap string)) :=
  devices ← assign devices "eth0" (mkmap {[ "type" := "none" ]});
  (* New config key *)
  devices ← foldl (λ acc i, devices ← acc; convertNet ct devices i)
                  (Some devices) (seq 0 (length (ConfigItem ct "lxc.net")));
  (* Old config key *)
  foldl (λ acc i, devices ← acc; convertNetwork ct devices i)
        (Some devices) (seq 0 (length (ConfigItem ct "lxc.network"))).

(** What the two loops keep: [eth0] is the device of type [none], and a
    key other than [eth0] holds what it held at the start or a network
    device written by a loop. *)
Definition converted (d0 : gmap string (gomap string))
    (devices : gomap (gomap string)) : Prop :=
  ∃ d, devices = mkmap d
       ∧ d !! "eth0" = Some (mkmap {[ "type" := "none" ]})
       ∧ ∀ k, k ≠ "eth0" →
              d !! k = d0 !! k
              ∨ ∃ (n : nat) g, k = "net" ++ pretty n ∧ d !! k = Some (mkmap g)
                       ∧ g !! "type" = Some "nic".

(** How a turn of the loop of [convertStorageConfig] ends: with
    [continue], with [return err], or with a device to add. *)
Inductive turn : Type :=
| Skip
| Stop (err : error)
| Add (device : gmap string string).

(** One turn of the loop of [convertStorageConfig], for the entry
    [mount]; [None] is a panic.  The errors made with [fmt.Errorf] and
    [%s] wrap no error: they are errors with the formatted text. *)
Definition convertMount (h : Host) (conf : list string) (mount : string)
  : option turn :=
  let parts := strings_Split mount " " in
  if bool_decide (length parts < 4)%nat then
    Some (Stop (errors_New ("Invalid mount configuration: " ++ mount)))
  else
    parts0 ← parts !! 0%nat;
    parts1 ← parts !! 1%nat;
    parts3 ← parts !! 3%nat;
    (* Ignore mounts that are present in containers by default. *)
    if slices_Contains ["proc"; "sysfs"] parts0 then Some Skip
    else
      let device : gmap string string := {[ "type" := "disk" ]} in
      (* Deal with read-only mounts *)
      let device :=
        if slices_Contains (strings_Split parts3 ",") "ro"
        then <["readonly" := "true"]> device else device in
      (* Deal with optional mounts *)
      let checked : option (error + gmap string string) :=
        if slices_Contains (strings_Split parts3 ",") "optional"
        then Some (inr (<["optional" := "true"]> device))
        else if strings_HasPrefix parts0 "/" then
               if negb (PathExists h parts0)
               then Some (inl (errors_New ("Invalid path: " ++ parts0)))
               else Some (inr device)
             else None in
      match checked with
      | None => Some Skip
      | Some (inl err) => Some (Stop err)
      | Some (inr device) =>
          (* Set the source *)
          let device := <["source" := parts0]> device in
          (* Figure out the target *)
          if negb (strings_HasPrefix parts1 "/") then
            Some (Add (<["path" := "/" ++ parts1]> device))
          else
            rootfs ← getRootfs h conf;
            match rootfs with
            | inl err => Some (Stop err)
            | inr rootfs =>
                Some (Add (<["path" := strings_TrimPrefix parts1 rootfs]> device))
            end
      end.

(** The entries the loop passes over with [continue]. *)
Definition skipped (h : Host) (conf : list string) (mount : string) : bool :=
  match convertMount h conf mount with
  | Some Skip => true
  | _ => false
  end.

(** The loop of [convertStorageConfig] from the entry numbered [i]: the
    devices when it ends and the error it returns; [None] is a panic. *)
Fixpoint convertMounts (h : Host) (conf : list string) (mounts : list string)
    (i : nat) (devices : gomap (gomap string))
  : option (gomap (gomap string) * option error) :=
  match mounts with
  | [] => Some (devices, None)
  | mount :: rest =>
      t ← convertMount h conf mount;
      match t with
      | Skip => convertMounts h conf rest i devices
      | Stop err => Some (devices, Some err)
      | Add device =>
          devices ← assign devices ("mount" ++ pretty i) (mkmap device);
          convertMounts h conf rest (S i) devices
      end
  end.

(** [convertStorageConfig] *)
Definition convertStorageConfig (h : Host) (conf : list string)
    (devices : gomap (gomap string))
  : option (gomap (gomap string) * option error) :=
  convertMounts h conf (elems (getConfig h conf "lxc.mount.entry")) 0 devices.

End Lxc.

Import Lxc.

(** ** Sample containers and requests *)

Module Examples.

(** [incus move --target node2 --config limits.cpu=1 --config limits.cpu=2] *)
Definition move_target_config : cmdMove :=
  {| flagQuiet := false; flagNoProfiles := false; flagProfile := nilslice;
     flagConfig := mkslice ["limits.cpu=1"; "limits.cpu=2"];
     flagInstanceOnly := false;
     flagDevice := nilslice; flagMode := moveDefaultMode;
     flagStateless := false; flagStorage := ""; flagTarget := "node2";
     flagTargetProject := ""; flagAllowInconsistent := false |}.

(** A host with the container [c1]: its root file system is a directory,
    and it mounts [proc] and, read-only, the directory [/srv/data] of the
    host, which exists. *)
Definition host : Host :=
  {| getConfig := λ _ key,
       if String.eqb key "lxc.rootfs.path"
       then mkslice ["dir:/var/lib/lxc/c1/rootfs"]
       else if String.eqb key "lxc.mount.entry"
       then mkslice ["proc proc proc nodev,noexec,nosuid 0 0";
                     "/srv/data srv/data none bind,ro 0 0"]
       else nilslice;
     PathExists := λ path, String.eqb path "/srv/data" |}.

(** A host whose configuration holds no key. *)
Definition bare : Host :=
  {| getConfig := λ _ _, nilslice; PathExists := λ _, false |}.

(** A network interface on the bridge [br0]. *)
Definition uplink : gmap string string :=
  {[ "type" := "veth"; "link" := "br0" ]}.

(** A network of type [empty]. *)
Definition unplugged : gmap string string := {[ "type" := "empty" ]}.

(** A container with one network, configured with the new keys. *)
Definition container : Container :=
  {| ConfigItem := λ key,
       if String.eqb key "lxc.net" then ["lxc.net.0"] else [];
     networkGet := λ _ _, mkmap uplink |}.

End Examples.

(** * Properties *)

(** ** [maps.Copy] *)

Section maps_Copy.
Context {V : Type}.
Implicit Types (g m : gmap string V) (kvs : list (string * V)).

Lemma foldl_panic {A B} (f : B → A → option B) (l : list A) :
  foldl (λ acc x, b ← acc; f b x) None l = None.
Proof. induction l as [|x l IH]; [done|]. simpl. exact IH. Qed.

Lemma copy_entries_cons kvs k v (dst : gomap V) :
  copy_entries ((k, v) :: kvs) dst = dst' ← assign dst k v; copy_entries kvs dst'.
Proof.
  unfold copy_entries. simpl.
  destruct (assign dst k v) as [dst'|]; simpl; [done|].
  apply foldl_panic.
Qed.

(** Writing entries with distinct keys one after the other is the union
    with the map they make, whatever their order. *)
Lemma copy_entries_mkmap kvs g :
  NoDup kvs.*1 →
  copy_entries kvs (mkmap g) = Some (mkmap (list_to_map kvs ∪ g)).
Proof.
  revert g. induction kvs as [|[k v] kvs IH]; intros g Hnd.
  - unfold copy_entries. simpl. by rewrite (left_id_L ∅ (∪)).
  - rewrite copy_entries_cons. simpl in *.
    apply NoDup_cons in Hnd as [Hk Hnd].
    rewrite (IH _ Hnd). do 2 f_equal.
    apply map_eq; intros i. rewrite !lookup_union.
    destruct (decide (i = k)) as [->|Hne].
    + rewrite !lookup_insert_eq.
      rewrite (not_elem_of_list_to_map_1 _ _ Hk). by destruct (g !! k).
    + by rewrite !lookup_insert_ne.
Qed.

Lemma copy_entries_enumeration kvs m g :
  kvs ≡ₚ map_to_list m →
  copy_entries kvs (mkmap g) = Some (mkmap (m ∪ g)).
Proof.
  intros Hp.
  assert (NoDup kvs.*1) as Hnd.
  { rewrite Hp. apply NoDup_fst_map_to_list. }
  rewrite (copy_entries_mkmap _ _ Hnd).
  rewrite (list_to_map_proper _ _ Hnd Hp).
  by rewrite list_to_map_to_list.
Qed.

(** On a destination that is not [nil], [maps.Copy] is the union in which
    the source wins. *)
Lemma maps_Copy_mkmap g (src : gomap V) :
  maps_Copy (mkmap g) src = Some (mkmap (entries src ∪ g)).
Proof. by apply copy_entries_enumeration. Qed.

(** On a [nil] destination it does nothing for an empty source and panics
    otherwise. *)
Lemma maps_Copy_nilmap (src : gomap V) :
  maps_Copy nilmap src = if decide (entries src = ∅) then Some nilmap else None.
Proof.
  unfold maps_Copy.
  destruct (decide (entries src = ∅)) as [->|Hne].
  - by rewrite map_to_list_empty.
  - destruct (map_to_list (entries src)) as [|[k v] kvs] eqn:Hl.
    + by apply map_to_list_empty_iff in Hl.
    + by rewrite copy_entries_cons.
Qed.

Lemma maps_Copy_entries (dst src dst' : gomap V) :
  maps_Copy dst src = Some dst' → entries dst' = entries src ∪ entries dst.
Proof.
  destruct dst as [|g].
  - rewrite maps_Copy_nilmap. case_decide as He; [|done].
    intros [= <-]. rewrite He. simpl. by rewrite (left_id_L ∅ (∪)).
  - rewrite maps_Copy_mkmap. by intros [= <-].
Qed.

End maps_Copy.

(** C8: the device-override merge is idempotent.  For every base map and
    every override map (of any element type, [nil] or not), merging the
    override onto the base with [maps.Copy] and then merging it again onto
    the result ends as merging it once: with the same map, or, when the
    base is [nil] and the override is not empty, with the same panic. *)
Theorem merge_idempotent {V : Type} (base override : gomap V) :
  (merged ← maps_Copy base override; maps_Copy merged override)
  = maps_Copy base override.
Proof.
  destruct base as [|g].
  - rewrite maps_Copy_nilmap. case_decide as He; [|done].
    simpl. rewrite maps_Copy_nilmap. by rewrite decide_True.
  - rewrite maps_Copy_mkmap. simpl. rewrite maps_Copy_mkmap.
    by rewrite (assoc_L (∪)), (idemp_L (∪)).
Qed.

(** ** The device overrides of a server-side move *)

Section stageDevices.
Variable inst : Instance.
Implicit Types (kvs : list (string * gomap string))
               (acc : gmap string (gomap string)).

Lemma stageDevices_cons kvs devName dev (devices : gomap (gomap string)) :
  stageDevices inst ((devName, dev) :: kvs) devices
  = devices' ← stageDevice inst devices devName dev;
    stageDevices inst kvs devices'.
Proof.
  unfold stageDevices. simpl.
  destruct (stageDevice inst devices devName dev); simpl; [done|].
  apply foldl_panic.
Qed.

Lemma stageDevice_mkmap acc devName dev :
  stageDevice inst (mkmap acc) devName dev
  = fullDev ← maps_Copy (expanded inst devName) dev;
    Some (mkmap (<[devName := fullDev]> acc)).
Proof. reflexivity. Qed.

(** What a completed loop has staged: under every name of an override the
    device of the instance after [maps.Copy], and nothing else is touched. *)
Lemma stageDevices_staged kvs acc devices :
  NoDup kvs.*1 →
  stageDevices inst kvs (mkmap acc) = Some devices →
  ∃ g, devices = mkmap g ∧
    ∀ devName,
      match list_to_map (M := gmap string (gomap string)) kvs !! devName with
      | Some dev =>
          ∃ fullDev, maps_Copy (expanded inst devName) dev = Some fullDev
                     ∧ g !! devName = Some fullDev
      | None => g !! devName = acc !! devName
      end.
Proof.
  revert acc. induction kvs as [|[k dev] kvs IH]; intros acc Hnd Hrun.
  - injection Hrun as <-. exists acc. split; [done|].
    intros devName. simpl. by rewrite lookup_empty.
  - rewrite stageDevices_cons, stageDevice_mkmap in Hrun.
    simpl in Hnd. apply NoDup_cons in Hnd as [Hk Hnd].
    destruct (maps_Copy (expanded inst k) dev) as [fullDev|] eqn:Hcopy; [|done].
    simpl in Hrun. destruct (IH _ Hnd Hrun) as (g & -> & Hg).
    exists g. split; [done|]. intros devName. specialize (Hg devName).
    simpl. destruct (decide (devName = k)) as [->|Hne].
    + rewrite lookup_insert_eq.
      rewrite (not_elem_of_list_to_map_1 _ _ Hk) in Hg.
      rewrite lookup_insert_eq in Hg. eauto.
    + rewrite lookup_insert_ne by done.
      destruct (list_to_map kvs !! devName); [done|].
      by rewrite lookup_insert_ne in Hg.
Qed.

(** The loop completes when no [maps.Copy] panics. *)
Lemma stageDevices_completes kvs acc :
  (∀ devName dev, (devName, dev) ∈ kvs →
     is_Some (maps_Copy (expanded inst devName) dev)) →
  is_Some (stageDevices inst kvs (mkmap acc)).
Proof.
  revert acc. induction kvs as [|[k dev] kvs IH]; intros acc Hok.
  - by eexists.
  - rewrite stageDevices_cons, stageDevice_mkmap.
    destruct (Hok k dev) as [fullDev ->]; [left|]. simpl.
    apply IH. intros devName dev' Hin. apply Hok. by right.
Qed.

(** Over the overrides of a map, in the order of any enumeration. *)
Lemma stageDevices_enumeration kvs (deviceMap : gomap (gomap string)) devices :
  kvs ≡ₚ map_to_list (entries deviceMap) →
  stageDevices inst kvs (mkmap ∅) = Some devices →
  ∀ devName dev, entries deviceMap !! devName = Some dev →
    ∃ fullDev, maps_Copy (expanded inst devName) dev = Some fullDev
               ∧ entries devices !! devName = Some fullDev.
Proof.
  intros Hp Hrun devName dev Hdev.
  assert (NoDup kvs.*1) as Hnd.
  { rewrite Hp. apply NoDup_fst_map_to_list. }
  destruct (stageDevices_staged _ _ _ Hnd Hrun) as (g & -> & Hg).
  specialize (Hg devName).
  rewrite (list_to_map_proper _ _ Hnd Hp), list_to_map_to_list, Hdev in Hg.
  exact Hg.
Qed.

(** An override for a device the instance does not have makes the loop
    panic, unless the override is empty. *)
Lemma stageDevices_unknown_device (deviceMap : gomap (gomap string)) devName dev :
  entries deviceMap !! devName = Some dev →
  expanded inst devName = nilmap →
  entries dev ≠ ∅ →
  stageDevices inst (map_to_list (entries deviceMap)) (mkmap ∅) = None.
Proof.
  intros Hdev Hnil Hne.
  destruct (stageDevices _ _ _) as [devices|] eqn:Hrun; [|done].
  destruct (stageDevices_enumeration _ _ _ (reflexivity _) Hrun _ _ Hdev)
    as (fullDev & Hcopy & _).
  rewrite Hnil, maps_Copy_nilmap, decide_False in Hcopy; done.
Qed.

End stageDevices.

(** ** Traces of function bodies *)

Section traces.
Context {R : Type}.

Lemma bind_trace {A B} (m : M R A) (k : A → M R B) :
  (m ≫= k).1 = (m.1 ++ match m.2 with Next a => (k a).1 | _ => [] end)%list.
Proof.
  destruct m as [tr [a|r|]]; unfold mbind, M_bind, bind; simpl.
  - by destruct (k a).
  - by rewrite app_nil_r.
  - by rewrite app_nil_r.
Qed.

Lemma bind_step {A B} (m : M R A) (k : A → M R B) :
  (m ≫= k).2 = match m.2 with
               | Next a => (k a).2
               | Return r => Return r
               | Panic => Panic
               end.
Proof.
  destruct m as [tr [a|r|]]; unfold mbind, M_bind, bind; simpl; [|done..].
  by destruct (k a).
Qed.

(** Every call of [m ≫= k] satisfies [P] when those of [m] do and those of
    [k] do on the value [m] goes on with. *)
Lemma bind_Forall (P : event → Prop) {A B} (m : M R A) (k : A → M R B) :
  Forall P m.1 →
  (∀ a, m.2 = Next a → Forall P (k a).1) →
  Forall P (m ≫= k).1.
Proof.
  intros Hm Hk. rewrite bind_trace. apply Forall_app. split; [done|].
  destruct (m.2) as [a| |]; [by apply Hk|constructor..].
Qed.

Lemma run_trace (body : M R R) : (run body).1 = body.1.
Proof. by destruct body as [tr [r|r|]]. Qed.

Lemma invoke_trace {R'} (body : M R' R') : (invoke (R := R) body).1 = body.1.
Proof. by destruct body as [tr [r|r|]]. Qed.

Lemma invoke_step {R'} (body : M R' R') :
  (invoke (R := R) body).2
  = match (run body).2 with Returned r => Next r | Panicked => Panic end.
Proof. by destruct body as [tr [r|r|]]. Qed.

Lemma filter_none (kind : event → bool) (tr : list event) :
  Forall (λ ev, kind ev = false) tr → List.filter kind tr = [].
Proof.
  induction 1 as [|ev tr Hev _ IH]; [done|]. simpl. by rewrite Hev.
Qed.

End traces.

Lemma check_Forall (P : event → Prop) {A} (m : M (option error) (error + A)) :
  Forall P m.1 → Forall P (check m).1.
Proof.
  intros Hm. apply bind_Forall; [done|]. intros [err|a] _; constructor.
Qed.

Lemma check_wrap_Forall (P : event → Prop) {A} prefix
    (m : M (option error) (error + A)) :
  Forall P m.1 → Forall P (check_wrap prefix m).1.
Proof.
  intros Hm. apply bind_Forall; [done|]. intros [err|a] _; constructor.
Qed.

Lemma check_Next {A} (x : error + A) (a : A) :
  (check (ret x)).2 = Next a → x = inr a.
Proof. destruct x; simpl; congruence. Qed.

Lemma when_Forall (P : event → Prop) {R} cond (body : M R unit) :
  Forall P body.1 → Forall P (when cond body).1.
Proof. destruct cond; [done|constructor]. Qed.

Lemma or_panic_Next {R A} (x : option A) (a : A) :
  (or_panic (R := R) x).2 = Next a → x = Some a.
Proof. destruct x; simpl; congruence. Qed.

Lemma bind_Next {R A B} (m : M R A) (k : A → M R B) (b : B) :
  (m ≫= k).2 = Next b → ∃ a, m.2 = Next a ∧ (k a).2 = Next b.
Proof. rewrite bind_step. destruct (m.2) as [a| |]; [eauto|done..]. Qed.

Lemma check_rpc_Next {A} ev (x : error + A) (a : A) :
  (check (rpc ev x)).2 = Next a → x = inr a.
Proof. destruct x; simpl; congruence. Qed.

Lemma check_wrap_rpc_Next {A} prefix ev (x : error + A) (a : A) :
  (check_wrap prefix (rpc ev x)).2 = Next a → x = inr a.
Proof. destruct x; simpl; congruence. Qed.

Lemma invoke_Forall (P : event → Prop) {R R'} (body : M R' R') :
  Forall P body.1 → Forall P (invoke (R := R) body).1.
Proof. by rewrite invoke_trace. Qed.

(** Steps through a body, one call at a time, for a property of each of its
    calls that holds by computation. *)
Ltac trace_auto :=
  repeat first
    [ progress intros
    | apply Forall_nil_2
    | apply bind_Forall
    | apply check_Forall
    | apply check_wrap_Forall
    | apply when_Forall
    | apply invoke_Forall
    | match goal with
      | |- Forall _ (fst (match ?x with _ => _ end)) => destruct x
      | |- Forall _ (fst (rpc _ _)) => apply Forall_cons; split; [try done|]
      | |- Forall _ (fst (ret _)) => apply Forall_nil_2
      | |- Forall _ (fst (retn _)) => apply Forall_nil_2
      | |- Forall _ (fst (or_panic ?x)) => destruct x; apply Forall_nil_2
      end ].

(** ** [moveInstance] *)

Section moveInstance.
Variables (w : World) (c : cmdMove) (sourceResource destResource : string)
          (stateful : bool).

(** It makes no call but its own: no rename, no copy, no delete. *)
Lemma moveInstance_calls :
  Forall (λ ev, is_move_call ev = true)
         (moveInstance w c sourceResource destResource stateful).1.
Proof. unfold moveInstance. trace_auto. Qed.

(** With [--profile], the request carries the profiles of the flag,
    whether or not [--no-profiles] is set as well. *)
Lemma moveInstance_profiles :
  (0 < len (flagProfile c))%nat →
  Forall (λ ev, match ev with
                | EMigrate _ _ req => Profiles req = flagProfile c
                | _ => True
                end)
         (moveInstance w c sourceResource destResource stateful).1.
Proof.
  intros Hlen. unfold moveInstance.
  rewrite (bool_decide_eq_true_2 _ Hlen). trace_auto.
Qed.

(** The destination name of the request is the one parsed, or the source
    name when that is empty. *)
Lemma moveInstance_name :
  Forall (λ ev, match ev with
                | EMigrate _ name req =>
                    ∃ sourceRemote destRemote destName,
                      ParseRemote w sourceResource = inr (sourceRemote, name)
                      ∧ ParseRemote w destResource = inr (destRemote, destName)
                      ∧ Name req = if bool_decide (destName = "") then name
                                   else destName
                | _ => True
                end)
         (moveInstance w c sourceResource destResource stateful).1.
Proof.
  unfold moveInstance.
  apply bind_Forall; [trace_auto|]. intros [sourceRemote sourceName] Hsrc%check_Next.
  apply bind_Forall; [trace_auto|]. intros [destRemote destName] Hdst%check_Next.
  trace_auto; simpl; eauto 10.
Qed.

(** With [--device], the request carries, under the name of every
    override, the device of the fetched instance after [maps.Copy]. *)
Lemma moveInstance_devices :
  (0 < len (flagDevice c))%nat →
  Forall (λ ev, match ev with
                | EMigrate member name req =>
                    ∃ sourceRemote source deviceMap inst,
                      ParseRemote w sourceResource = inr (sourceRemote, name)
                      ∧ GetInstanceServer w sourceRemote = inr source
                      ∧ parseDeviceOverrides w (flagDevice c) = inr deviceMap
                      ∧ be_GetInstance (backend source member) name = inr inst
                      ∧ stageDevices inst (map_to_list (entries deviceMap))
                                     (mkmap ∅) = Some (Devices req)
                | _ => True
                end)
         (moveInstance w c sourceResource destResource stateful).1.
Proof.
  intros Hlen. unfold moveInstance.
  rewrite (bool_decide_eq_true_2 _ Hlen).
  apply bind_Forall; [trace_auto|].
  intros [sourceRemote sourceName] Hsrc%check_Next.
  apply bind_Forall; [trace_auto|]. intros [destRemote destName] _.
  apply bind_Forall; [trace_auto|]. intros _ _.
  apply bind_Forall; [trace_auto|]. intros source Hsrv%check_wrap_rpc_Next.
  apply bind_Forall; [trace_auto|]. intros _ _.
  apply bind_Forall; [trace_auto|]. intros reqConfig _.
  apply bind_Forall; [trace_auto|]. intros reqDevices Hdev.
  apply bind_Next in Hdev as (deviceMap & Hparse%check_Next & Hdev).
  apply bind_Next in Hdev as (inst & Hget%check_rpc_Next & Hstage%or_panic_Next).
  trace_auto. simpl.
  exists sourceRemote, source, deviceMap, inst.
  repeat split; try done.
  revert Hget. unfold GetInstance. by case_bool_decide.
Qed.

End moveInstance.

(** C7: in a server-side move, the device staged for each named device is
    the instance's expanded device shallow-merged with the override.
    (1) The staging loop completes whenever the instance has every device
    the overrides name.  (2) Whenever [moveInstance] submits a migration
    request for a command with device overrides, the overrides were parsed
    into some [deviceMap], the instance [inst] was fetched from the source
    server, and for every device named in [deviceMap] the request holds a
    device definition in which each key of the override has the override's
    value and every other key has the value of the instance's expanded
    device. *)
Theorem staged_device_is_merge :
  (∀ inst (deviceMap : gomap (gomap string)),
     (∀ devName dev, entries deviceMap !! devName = Some dev →
        expanded inst devName ≠ nilmap) →
     is_Some (stageDevices inst (map_to_list (entries deviceMap)) (mkmap ∅)))
  ∧
  (∀ w c sourceResource destResource stateful member name req,
     (0 < len (flagDevice c))%nat →
     EMigrate member name req
       ∈ (run (moveInstance w c sourceResource destResource stateful)).1 →
     ∃ sourceRemote source deviceMap inst,
       ParseRemote w sourceResource = inr (sourceRemote, name)
       ∧ GetInstanceServer w sourceRemote = inr source
       ∧ parseDeviceOverrides w (flagDevice c) = inr deviceMap
       ∧ be_GetInstance (backend source member) name = inr inst
       ∧ ∀ devName dev, entries deviceMap !! devName = Some dev →
           ∃ staged,
             entries (Devices req) !! devName = Some staged
             ∧ ∀ key, entries staged !! key
                      = match entries dev !! key with
                        | Some value => Some value
                        | None => entries (expanded inst devName) !! key
                        end).
Proof.
  split.
  - intros inst deviceMap Hknown. apply stageDevices_completes.
    intros devName dev Hin%elem_of_map_to_list.
    specialize (Hknown _ _ Hin).
    destruct (expanded inst devName) as [|g] eqn:He; [done|].
    rewrite maps_Copy_mkmap. by eexists.
  - intros w c sourceResource destResource stateful member name req Hlen Hin.
    rewrite run_trace in Hin.
    pose proof (moveInstance_devices w c sourceResource destResource stateful Hlen)
      as Hall.
    rewrite Forall_forall in Hall. specialize (Hall _ Hin). simpl in Hall.
    destruct Hall as (sourceRemote & source & deviceMap & inst
                      & Hsrc & Hsrv & Hparse & Hget & Hstage).
    exists sourceRemote, source, deviceMap, inst. repeat split; try done.
    intros devName dev Hdev.
    destruct (stageDevices_enumeration inst _ deviceMap _ (reflexivity _)
                Hstage _ _ Hdev) as (staged & Hcopy & Hstaged).
    exists staged. split; [done|]. intros key.
    rewrite (maps_Copy_entries _ _ _ Hcopy), lookup_union.
    destruct (entries dev !! key) as [value|]; simpl.
    + by destruct (entries (expanded inst devName) !! key).
    + by destruct (entries (expanded inst devName) !! key).
Qed.


(** [incus move web1 --target node2 --device eth0,mtu=9000] on a cluster:
    the staged [eth0] has the new [mtu] and keeps its [nictype], and the
    loop completes for an override of a device the instance has. *)
Lemma staged_device_is_merge_witness :
  (∃ req staged,
     EMigrate "node2" "web1" req
       ∈ (run (moveInstance (Sample.world Sample.cluster None None)
                 (Sample.move_device "eth0,mtu=9000") "web1" "web1" true)).1
     ∧ entries (Devices req) !! "eth0" = Some staged
     ∧ entries staged !! "mtu" = Some "9000"
     ∧ entries staged !! "nictype" = Some "bridged")
  ∧ is_Some (stageDevices Sample.web1
               (map_to_list (entries Sample.mtu_override)) (mkmap ∅)).
Proof.
  destruct staged_device_is_merge as [Hcompletes Hmerged].
  split.
  - set (w := Sample.world Sample.cluster None None).
    set (c := Sample.move_device "eth0,mtu=9000").
    assert (∃ req, (run (moveInstance w c "web1" "web1" true)).1 !! 2%nat
                   = Some (EMigrate "node2" "web1" req)) as [req Hreq].
    { vm_compute. eexists. reflexivity. }
    apply list_elem_of_lookup_2 in Hreq.
    assert (0 < len (flagDevice c))%nat as Hlen by (vm_compute; lia).
    destruct (Hmerged w c "web1" "web1" true "node2" "web1" req Hlen Hreq)
      as (sourceRemote & source & deviceMap & inst
          & Hsrc & Hsrv & Hparse & Hget & Hall).
    assert (ParseRemote w "web1" = inr ("local", "web1")) as Hlocal
      by (vm_compute; reflexivity).
    rewrite Hlocal in Hsrc. injection Hsrc as <-.
    assert (GetInstanceServer w "local" = inr Sample.cluster) as Hcluster
      by (vm_compute; reflexivity).
    rewrite Hcluster in Hsrv. injection Hsrv as <-.
    assert (be_GetInstance (backend Sample.cluster "node2") "web1"
            = inr Sample.web1) as Hweb1 by (vm_compute; reflexivity).
    rewrite Hweb1 in Hget. injection Hget as <-.
    assert (parseDeviceOverrides w (flagDevice c) = inr Sample.mtu_override)
      as Hmap by (vm_compute; reflexivity).
    rewrite Hmap in Hparse. injection Hparse as <-.
    destruct (Hall "eth0" (mkmap {[ "mtu" := "9000" ]}))
      as (staged & Hstaged & Hkeys).
    { vm_compute. reflexivity. }
    exists req, staged. split; [exact Hreq|]. split; [exact Hstaged|]. split.
    + rewrite Hkeys. vm_compute. reflexivity.
    + rewrite Hkeys. vm_compute. reflexivity.
  - apply (Hcompletes Sample.web1 Sample.mtu_override).
    intros devName dev Hdev. unfold Sample.mtu_override, entries in Hdev.
    apply lookup_singleton_Some in Hdev as [<- <-].
    vm_compute. intros Hnil. discriminate Hnil.
Defined.

(** C10: a server-side move that names a cluster member ([--target]) on a
    source server that reports it is not clustered fails with the error
    "--target can only be used with clusters".  The only call made before
    is the connection to the source server: no instance is fetched and no
    migration request is submitted. *)
Theorem target_requires_cluster w c sourceResource destResource stateful
    sourceRemote sourceName destRemote destName source :
  ParseRemote w sourceResource = inr (sourceRemote, sourceName) →
  ParseRemote w destResource = inr (destRemote, destName) →
  sourceName ≠ "" →
  GetInstanceServer w sourceRemote = inr source →
  IsClustered source = false →
  flagTarget c ≠ "" →
  run (moveInstance w c sourceResource destResource stateful)
  = ([EConnect sourceRemote],
     Returned (Some (errors_New "--target can only be used with clusters"))).
Proof.
  intros Hsrc Hdst Hname Hsrv Hcl Htarget. unfold moveInstance.
  rewrite Hsrc, Hdst. simpl.
  rewrite (bool_decide_eq_false_2 _ Hname). simpl.
  rewrite Hsrv. simpl. rewrite Hcl.
  by rewrite (bool_decide_eq_true_2 _ Htarget).
Qed.

(** [incus move web1 --target node2] on a standalone server. *)
Lemma target_requires_cluster_witness :
  run (moveInstance (Sample.world Sample.standalone None None)
         Sample.move_target "web1" "web1" true)
  = ([EConnect "local"],
     Returned (Some (errors_New "--target can only be used with clusters"))).
Proof.
  apply (target_requires_cluster _ _ _ _ _ "local" "web1" "local" "web1"
           Sample.standalone);
    vm_compute; first [reflexivity | discriminate].
Defined.

(** ** [Run] *)

Lemma Forall_False_nil (tr : list event) : Forall (λ _, False) tr → tr = [].
Proof. by destruct 1. Qed.

(** Parsing the arguments makes no call. *)
Lemma resolve_trace w c args : (resolve w c args).1 = [].
Proof.
  apply Forall_False_nil. unfold resolve, at_index. trace_auto.
Qed.

Lemma resolve_Next w c args mode sr sn dr dn :
  (resolve w c args).2 = Next (mode, (sr, sn), (dr, dn)) →
  ∃ a0, args !! 0%nat = Some a0 ∧ ParseRemote w a0 = inr (sr, sn).
Proof.
  intros H. unfold resolve in H.
  apply bind_Next in H as ([] & _ & H).
  apply bind_Next in H as (a0 & Ha0%or_panic_Next & H).
  apply bind_Next in H as ([sr' sn'] & Hsrc%check_Next & H).
  apply bind_Next in H as ([dr' dn'] & _ & H).
  simpl in H. injection H as _ <- <- _ _. eauto.
Qed.

Lemma Run_resolved w c args mode src dst :
  (resolve w c args).2 = Next (mode, src, dst) →
  run (Run w c args) = run (relocate w c args mode src dst).
Proof.
  intros H. unfold Run.
  pose proof (resolve_trace w c args) as Htr.
  destruct (resolve w c args) as [tr st]. simpl in *. subst.
  unfold mbind, M_bind, bind.
  by destruct (relocate w c args mode src dst) as [tr [r|r|]].
Qed.

Lemma Run_unresolved w c args :
  (∀ x, (resolve w c args).2 ≠ Next x) → (run (Run w c args)).1 = [].
Proof.
  intros H. rewrite run_trace. unfold Run. rewrite bind_trace, resolve_trace.
  destruct ((resolve w c args).2) as [x| |]; [by destruct (H x)|done..].
Qed.

(** The closure makes at most the connection call and answers. *)
Ltac run_cases :=
  unfold when, check, check_wrap, rpc, retn, ret, panic, or_panic, mbind,
    M_bind, mret, M_ret;
  simpl;
  repeat (match goal with
          | |- context [if ?b then _ else _] => destruct b eqn:?
          | |- context [match ?x with inl _ => _ | inr _ => _ end] =>
              destruct x eqn:?
          | |- context [match ?x with Some _ => _ | None => _ end] =>
              destruct x eqn:?
          end; simpl).

Lemma isServerSide_run w c sr dr :
  ∃ pre b, run (isServerSide w c sr dr) = (pre, Returned b)
           ∧ Forall (λ ev, is_connect ev = true) pre.
Proof.
  unfold isServerSide. run_cases; eauto 6.
Qed.

(** A server without "instance_move_config" does not take a move that
    overrides configuration. *)
Lemma isServerSide_lacking_config w c sr dr :
  (0 < len (flagConfig c))%nat →
  (∀ source, GetInstanceServer w sr = inr source →
     HasExtension source "instance_move_config" = false) →
  (run (isServerSide w c sr dr)).2 = Returned false.
Proof.
  intros Hlen Hext. unfold isServerSide.
  rewrite (bool_decide_eq_true_2 _ Hlen).
  run_cases; try done.
  rewrite (Hext _ eq_refl) in *. done.
Qed.

(** The copy and then, only after its success, the delete. *)
Lemma copyThenDelete_run w c args mode sourceResource destResource stateful a0 :
  args !! 0%nat = Some a0 →
  ∃ call del,
    cc_cmd call
    = {| cpy_flagTarget := flagTarget c;
         cpy_flagTargetProject := flagTargetProject c;
         cpy_flagConfig := flagConfig c;
         cpy_flagDevice := flagDevice c;
         cpy_flagProfile := flagProfile c;
         cpy_flagNoProfiles := flagNoProfiles c;
         cpy_flagAllowInconsistent := flagAllowInconsistent c |}
    ∧ cc_mode call = mode
    ∧ run (copyThenDelete w c args mode sourceResource destResource stateful)
      = match copyInstance w call with
        | Some err => ([ECopy call], Returned (Some err))
        | None =>
            ([ECopy call; EDelete del [a0]],
             Returned (match deleteRun w del [a0] with
                       | Some err => Some (orphaned err)
                       | None => None
                       end))
        end.
Proof.
  intros Ha0. destruct args as [|a args]; [done|]. injection Ha0 as ->.
  unfold copyThenDelete, slice_to. simpl. rewrite take_0.
  match goal with
  | |- context [copyInstance w ?call] => exists call
  end.
  exists {| del_flagForce := true; del_flagForceProtected := true |}.
  split; [done|]. split; [done|]. run_cases; reflexivity.
Qed.

Lemma bind_Next_l {R A B} (a : A) (k : A → M R B) :
  (([], Next a) : M R A) ≫= k = k a.
Proof. unfold mbind, M_bind, bind. by destruct (k a). Qed.

Lemma run_bind_Next {R A} pre (a : A) (k : A → M R R) :
  run (((pre, Next a) : M R A) ≫= k)
  = ((pre ++ (run (k a)).1)%list, (run (k a)).2).
Proof. unfold mbind, M_bind, bind. by destruct (k a) as [tr [r|r|]]. Qed.

Lemma invoke_Returned {R R'} (body : M R' R') tr r :
  run body = (tr, Returned r) → invoke (R := R) body = (tr, Next r).
Proof. unfold invoke. by intros ->. Qed.

Lemma run_invoke_retn {R} (body : M R R) :
  run (invoke body ≫= λ r, retn r) = run body.
Proof.
  destruct body as [tr [r|r|]]; unfold mbind, M_bind, bind; simpl;
    by rewrite ?app_nil_r.
Qed.

(** The rename branch. *)
Lemma relocate_in_place w c args mode sr sn dr dn :
  in_place c sr dr = true →
  run (relocate w c args mode (sr, sn) (dr, dn))
  = if plain c then
      match GetInstanceServer w sr with
      | inl err => ([EConnect sr], Returned (Some err))
      | inr source =>
          let post := InstancePost_named dn in
          match RenameInstance source sn post with
          | inl err =>
              ([EConnect sr; ERename (target source) sn post],
               Returned (Some err))
          | inr op =>
              ([EConnect sr; ERename (target source) sn post; EWait],
               Returned (Wait op))
          end
      end
    else ([], Returned (Some (errors_New
            "Can't override configuration or profiles in local rename"))).
Proof.
  intros Hin. unfold relocate. unfold in_place in Hin. rewrite Hin.
  unfold plain.
  destruct (is_nil (flagConfig c)), (is_nil (flagDevice c)),
    (is_nil (flagProfile c)), (flagNoProfiles c); simpl; try reflexivity.
  run_cases; reflexivity.
Qed.

(** The other branch: the closure is asked, then the server moves the
    instance or the client copies and deletes it. *)
Lemma relocate_elsewhere w c args mode sr sn dr dn a0 :
  in_place c sr dr = false →
  args !! 0%nat = Some a0 →
  ∃ destResource pre serverSide,
    run (isServerSide w c sr dr) = (pre, Returned serverSide)
    ∧ Forall (λ ev, is_connect ev = true) pre
    ∧ let body :=
        if serverSide
        then moveInstance w c a0 destResource (negb (flagStateless c))
        else copyThenDelete w c args mode a0 destResource
               (negb (flagStateless c)) in
      run (relocate w c args mode (sr, sn) (dr, dn))
      = ((pre ++ (run body).1)%list, (run body).2).
Proof.
  intros Hin Ha0.
  assert (∃ destResource,
            (if bool_decide (length args = 2) then at_index args 1
             else ret a0) = (([], Next destResource) : M (option error) string))
    as [destResource Hdest].
  { destruct (bool_decide (length args = 2)) eqn:Hlen; [|eexists; reflexivity].
    apply bool_decide_eq_true_1 in Hlen.
    unfold at_index.
    destruct (lookup_lt_is_Some_2 args 1) as [a1 ->]; [lia|].
    eexists; reflexivity. }
  destruct (isServerSide_run w c sr dr) as (pre & serverSide & Hside & Hpre).
  exists destResource, pre, serverSide. split; [done|]. split; [done|].
  unfold relocate. unfold in_place in Hin. rewrite Hin.
  replace (at_index (R := option error) args 0)
    with (([], Next a0) : M (option error) string)
    by (unfold at_index; by rewrite Ha0).
  rewrite bind_Next_l, Hdest, bind_Next_l.
  rewrite (invoke_Returned _ _ _ Hside), run_bind_Next.
  destruct serverSide; by rewrite run_invoke_retn.
Qed.

Lemma connects_no_copy_delete pre :
  Forall (λ ev, is_connect ev = true) pre → copy_delete_calls pre = [].
Proof.
  intros Hpre. apply filter_none. eapply Forall_impl; [exact Hpre|].
  by intros [].
Qed.

Lemma moveInstance_no_copy_delete w c sourceResource destResource stateful :
  copy_delete_calls (run (moveInstance w c sourceResource destResource
                            stateful)).1 = [].
Proof.
  rewrite run_trace. apply filter_none.
  eapply Forall_impl; [apply moveInstance_calls|]. by intros [].
Qed.

Lemma copy_delete_calls_app tr1 tr2 :
  copy_delete_calls (tr1 ++ tr2)
  = (copy_delete_calls tr1 ++ copy_delete_calls tr2)%list.
Proof. apply List.filter_app. Qed.

(** The copy and delete calls of any run: none, a failed copy whose error
    is returned, or a successful copy followed by one delete. *)
Lemma Run_copy_delete w c args : copy_delete_shape w (run (Run w c args)).
Proof.
  destruct ((resolve w c args).2) as [[[mode [sr sn]] [dr dn]]| |] eqn:Hres.
  - rewrite (Run_resolved _ _ _ _ _ _ Hres).
    destruct (resolve_Next _ _ _ _ _ _ _ _ Hres) as (a0 & Ha0 & _).
    destruct (in_place c sr dr) eqn:Hin.
    + rewrite (relocate_in_place _ _ _ _ _ _ _ _ Hin). left.
      destruct (plain c); [|done].
      destruct (GetInstanceServer w sr) as [err|source]; [done|]. simpl.
      by destruct (RenameInstance _ _ _).
    + destruct (relocate_elsewhere w c args mode sr sn dr dn a0 Hin Ha0)
        as (destResource & pre & serverSide & _ & Hpre & ->).
      unfold copy_delete_shape. simpl.
      rewrite copy_delete_calls_app, (connects_no_copy_delete _ Hpre). simpl.
      destruct serverSide.
      * left. apply moveInstance_no_copy_delete.
      * destruct (copyThenDelete_run w c args mode a0 destResource
                    (negb (flagStateless c)) a0 Ha0)
          as (call & del & _ & _ & ->).
        destruct (copyInstance w call) as [err|] eqn:Hcopy.
        -- right; left. by exists call, err.
        -- right; right. by exists call, del, [a0].
  - left. rewrite Run_unresolved; [done|]. intros x. by rewrite Hres.
  - left. rewrite Run_unresolved; [done|]. intros x. by rewrite Hres.
Qed.

Lemma calls_copy_delete kind tr :
  (∀ ev, kind ev = true → is_copy ev || is_delete ev = true) →
  calls kind tr = calls kind (copy_delete_calls tr).
Proof.
  intros Hkind. unfold calls, copy_delete_calls.
  induction tr as [|ev tr IH]; [done|]. simpl.
  destruct (kind ev) eqn:Hev.
  - rewrite (Hkind _ Hev). simpl. rewrite Hev. simpl. by rewrite IH.
  - destruct (is_copy ev || is_delete ev); simpl; by rewrite ?Hev.
Qed.

Lemma elem_of_copy_delete_calls ev tr :
  ev ∈ tr → is_copy ev || is_delete ev = true → ev ∈ copy_delete_calls tr.
Proof.
  intros Hin Hev. apply list_elem_of_In, List.filter_In.
  split; [by apply list_elem_of_In|done].
Qed.

Lemma wrapped_ne prefix err : Errorf_w prefix err ≠ err.
Proof.
  intros Heq. apply (f_equal depth) in Heq. simpl in Heq. lia.
Qed.

(** C1: in every run of the command, the delete of the source is invoked
    if and only if the copy returned success.  The number of delete calls
    is the number of copy calls that [copyInstance] answered with success;
    and the copy and delete calls of the run, in their order, are: none; or
    one copy that failed, and then its error is what [Run] returns and no
    delete follows; or one copy that succeeded followed by one delete. *)
Theorem delete_iff_copy_succeeded w c args :
  let r := run (Run w c args) in
  calls is_delete r.1 = calls (is_copy_done w) r.1
  ∧ match copy_delete_calls r.1 with
    | [] => True
    | [ECopy call] =>
        ∃ err, copyInstance w call = Some err ∧ r.2 = Returned (Some err)
    | [ECopy call; EDelete _ _] => copyInstance w call = None
    | _ => False
    end.
Proof.
  intros r. subst r.
  rewrite (calls_copy_delete is_delete), (calls_copy_delete (is_copy_done w)).
  2: { intros [] Hev; try done. }
  2: { intros [] Hev; try done. }
  destruct (Run_copy_delete w c args)
    as [->|[(call & err & -> & Hcopy & Hout)|(call & del & delArgs & -> & Hcopy & Hout)]].
  - done.
  - split; [|by exists err].
    unfold calls. simpl. by rewrite Hcopy.
  - split; [|done].
    unfold calls. simpl. by rewrite Hcopy.
Qed.

(** C2: when the copy succeeded and the delete of the source that follows
    fails with [err], [Run] returns an error of its own kind: [err] wrapped
    under "Failed to delete original instance after copying it", which is
    neither [err] itself nor no error; whereas a copy that fails with [err],
    in any run, makes [Run] return [err] unwrapped. *)
Theorem delete_failure_is_distinct w c args call del delArgs err :
  ECopy call ∈ (run (Run w c args)).1 →
  copyInstance w call = None →
  EDelete del delArgs ∈ (run (Run w c args)).1 →
  deleteRun w del delArgs = Some err →
  (run (Run w c args)).2 = Returned (Some (orphaned err))
  ∧ is_orphaned (orphaned err) = true
  ∧ Unwrap (orphaned err) = Some err
  ∧ orphaned err ≠ err
  ∧ ∀ w' c' args' call',
      ECopy call' ∈ (run (Run w' c' args')).1 →
      copyInstance w' call' = Some err →
      (run (Run w' c' args')).2 = Returned (Some err).
Proof.
  intros Hcall Hcopy Hdel Hfail.
  apply elem_of_copy_delete_calls in Hcall; [|done].
  apply elem_of_copy_delete_calls in Hdel; [|done].
  split; [|split; [done|split; [done|split; [apply wrapped_ne|]]]].
  - destruct (Run_copy_delete w c args)
      as [He|[(call' & err' & He & _)|(call' & del' & delArgs' & He & _ & Hout)]];
      rewrite He in Hcall, Hdel.
    + by apply elem_of_nil in Hdel.
    + by apply list_elem_of_singleton in Hdel.
    + apply elem_of_cons in Hdel as [Hdel|Hdel]; [done|].
      apply list_elem_of_singleton in Hdel. injection Hdel as <- <-.
      by rewrite Hout, Hfail.
  - intros w' c' args' call' Hcall' Hcopy'.
    apply elem_of_copy_delete_calls in Hcall'; [|done].
    destruct (Run_copy_delete w' c' args')
      as [He|[(call2 & err2 & He & Hcopy2 & Hout)
             |(call2 & del2 & delArgs2 & He & Hcopy2 & _)]];
      rewrite He in Hcall'.
    + by apply elem_of_nil in Hcall'.
    + apply list_elem_of_singleton in Hcall'. injection Hcall' as <-.
      rewrite Hout. congruence.
    + apply elem_of_cons in Hcall' as [Hcall'|Hcall'].
      * injection Hcall' as <-. congruence.
      * by apply list_elem_of_singleton in Hcall'.
Qed.

(** [incus move --mode relay web1 b:web1] when the copy succeeds and the
    delete of [web1] fails. *)
Lemma delete_failure_is_distinct_witness :
  (run (Run (Sample.world Sample.standalone None (Some (errors_New "boom")))
          Sample.move_relay ["web1"; "b:web1"])).2
  = Returned (Some (orphaned (errors_New "boom"))).
Proof.
  set (w := Sample.world Sample.standalone None (Some (errors_New "boom"))).
  assert (∃ call, (run (Run w Sample.move_relay ["web1"; "b:web1"])).1 !! 0%nat
                  = Some (ECopy call)) as [call Hcall].
  { vm_compute. eexists. reflexivity. }
  assert (∃ del, (run (Run w Sample.move_relay ["web1"; "b:web1"])).1 !! 1%nat
                 = Some (EDelete del ["web1"])) as [del Hdel].
  { vm_compute. eexists. reflexivity. }
  apply list_elem_of_lookup_2 in Hcall, Hdel.
  apply (delete_failure_is_distinct w _ _ call del ["web1"] (errors_New "boom")
           Hcall eq_refl Hdel eq_refl).
Defined.

Lemma Run_in_place w c args mode sr sn dr dn :
  (resolve w c args).2 = Next (mode, (sr, sn), (dr, dn)) →
  in_place c sr dr = true →
  plain c = false →
  run (Run w c args)
  = ([], Returned (Some (errors_New
           "Can't override configuration or profiles in local rename"))).
Proof.
  intros Hres Hin Hplain.
  by rewrite (Run_resolved _ _ _ _ _ _ Hres),
       (relocate_in_place _ _ _ _ _ _ _ _ Hin), Hplain.
Qed.

(** A request with a config override against a source lacking
    "instance_move_config", on one connection and with no target: it is
    rejected and no copy is made. *)
Lemma config_override_rejected_in_place :
  let w := Sample.world Sample.standalone None None in
  let r := run (Run w Sample.move_config ["web1"; "web2"]) in
  (0 < len (flagConfig Sample.move_config))%nat
  ∧ HasExtension Sample.standalone "instance_move_config" = false
  ∧ (resolve w Sample.move_config ["web1"; "web2"]).2
    = Next ("pull", ("local", "web1"), ("local", "web2"))
  ∧ calls is_copy r.1 = 0%nat
  ∧ r.2 = Returned (Some (errors_New
            "Can't override configuration or profiles in local rename")).
Proof. vm_compute. repeat split; lia. Qed.

(** C3, as the command has it: a request with a config override whose
    source lacks "instance_move_config" is never moved by the server.
    When source and destination are on one connection and no cluster
    member, pool or project is targeted, the request is rejected with
    "Can't override configuration or profiles in local rename" before any
    call; in every other case the client copies the instance, with the
    config override and the transfer mode handed to the copy, after at most
    connection calls. *)
Theorem config_override_without_capability w c args mode sr sn dr dn :
  (resolve w c args).2 = Next (mode, (sr, sn), (dr, dn)) →
  (0 < len (flagConfig c))%nat →
  (∀ source, GetInstanceServer w sr = inr source →
     HasExtension source "instance_move_config" = false) →
  let r := run (Run w c args) in
  calls is_migrate r.1 = 0%nat
  ∧ if in_place c sr dr
    then r = ([], Returned (Some (errors_New
                "Can't override configuration or profiles in local rename")))
    else ∃ pre call rest,
           r.1 = (pre ++ ECopy call :: rest)%list
           ∧ Forall (λ ev, is_connect ev = true) pre
           ∧ calls is_copy r.1 = 1%nat
           ∧ cpy_flagConfig (cc_cmd call) = flagConfig c
           ∧ cc_mode call = mode.
Proof.
  intros Hres Hlen Hext r. subst r.
  destruct (in_place c sr dr) eqn:Hin.
  - rewrite (Run_in_place _ _ _ _ _ _ _ _ Hres Hin); [done|].
    unfold plain. destruct (flagConfig c) eqn:Hflag; [|done].
    cbv in Hlen. lia.
  - rewrite (Run_resolved _ _ _ _ _ _ Hres).
    destruct (resolve_Next _ _ _ _ _ _ _ _ Hres) as (a0 & Ha0 & _).
    destruct (relocate_elsewhere w c args mode sr sn dr dn a0 Hin Ha0)
      as (destResource & pre & serverSide & Hside & Hpre & ->).
    pose proof (isServerSide_lacking_config w c sr dr Hlen Hext) as Hno.
    rewrite Hside in Hno. injection Hno as ->.
    destruct (copyThenDelete_run w c args mode a0 destResource
                (negb (flagStateless c)) a0 Ha0)
      as (call & del & Hcmd & Hmode & ->).
    assert (calls is_migrate pre = 0%nat ∧ calls is_copy pre = 0%nat)
      as [Hmig Hcpy].
    { unfold calls. split; (rewrite filter_none; [done|]);
        (eapply Forall_impl; [exact Hpre|]); by intros []. }
    unfold calls in *. simpl.
    destruct (copyInstance w call); simpl.
    + rewrite !List.filter_app, !length_app, Hmig, Hcpy. simpl.
      split; [done|]. exists pre, call, []. by rewrite Hcmd.
    + rewrite !List.filter_app, !length_app, Hmig, Hcpy. simpl.
      split; [done|]. exists pre, call, [EDelete del [a0]]. by rewrite Hcmd.
Qed.

(** [incus move --config limits.cpu=2 web1 b:web1]: copied by the client. *)
Lemma config_override_without_capability_witness :
  calls is_migrate
    (run (Run (Sample.world Sample.standalone None None) Sample.move_config
            ["web1"; "b:web1"])).1 = 0%nat.
Proof.
  refine (proj1 (config_override_without_capability
                   (Sample.world Sample.standalone None None)
                   Sample.move_config ["web1"; "b:web1"]
                   "pull" "local" "web1" "b" "web1" _ _ _)).
  - vm_compute. reflexivity.
  - vm_compute. lia.
  - intros source Hsource.
    assert (GetInstanceServer (Sample.world Sample.standalone None None) "local"
            = inr Sample.standalone) as Hlocal by (vm_compute; reflexivity).
    rewrite Hlocal in Hsource. injection Hsource as <-. reflexivity.
Defined.

(** With [--profile], whatever [--no-profiles] says, a server-side move
    asks for the profiles of the flag and a copy is handed both flags. *)
Lemma Run_profiles w c args :
  (0 < len (flagProfile c))%nat →
  Forall (λ ev, match ev with
                | EMigrate _ _ req => Profiles req = flagProfile c
                | ECopy call =>
                    cpy_flagProfile (cc_cmd call) = flagProfile c
                    ∧ cpy_flagNoProfiles (cc_cmd call) = flagNoProfiles c
                | _ => True
                end)
         (Run w c args).1.
Proof.
  intros Hlen.
  unfold Run, resolve, relocate, isServerSide, copyThenDelete, moveInstance,
    at_index, slice_to.
  rewrite (bool_decide_eq_true_2 _ Hlen). trace_auto.
Qed.

(** Both [--profile] and [--no-profiles] on a cluster that moves the
    instance itself: no error, the move is submitted with the profiles of
    [--profile]. *)
Lemma conflicting_profiles_accepted :
  let w := Sample.world Sample.cluster None None in
  (0 < len (flagProfile Sample.move_profiles))%nat
  ∧ flagNoProfiles Sample.move_profiles = true
  ∧ run (Run w Sample.move_profiles ["web1"])
    = ([EConnect "local"; EConnect "local";
        EMigrate "node2" "web1"
          {| Name := "web1"; Migration := true; InstanceOnly := false;
             Pool := ""; Project := ""; Live := true;
             Profiles := mkslice ["default"]; Config := nilmap;
             Devices := nilmap |};
        EAddHandler; ECancelableWait; EProgressDone],
       Returned None).
Proof. vm_compute. repeat split; lia. Qed.

(** C4, as the command has it: with both [--profile] and [--no-profiles],
    a request that qualifies for the rename (one connection, no cluster
    member, pool or project targeted) is rejected before any call, with
    the error the rename gives for any override, "Can't override
    configuration or profiles in local rename"; a server-side move raises
    no conflict and submits the profiles of [--profile]; a client copy is
    handed both flags as they are. *)
Theorem profile_flags_together w c args :
  (0 < len (flagProfile c))%nat →
  flagNoProfiles c = true →
  let r := run (Run w c args) in
  (∀ mode sr sn dr dn,
     (resolve w c args).2 = Next (mode, (sr, sn), (dr, dn)) →
     in_place c sr dr = true →
     r = ([], Returned (Some (errors_New
            "Can't override configuration or profiles in local rename"))))
  ∧ (∀ member name req,
       EMigrate member name req ∈ r.1 → Profiles req = flagProfile c)
  ∧ (∀ call,
       ECopy call ∈ r.1 →
       cpy_flagProfile (cc_cmd call) = flagProfile c
       ∧ cpy_flagNoProfiles (cc_cmd call) = true).
Proof.
  intros Hlen Hno r. subst r.
  pose proof (Run_profiles w c args Hlen) as Hall.
  rewrite Forall_forall in Hall. rewrite run_trace.
  split; [|split].
  - intros mode sr sn dr dn Hres Hin.
    apply (Run_in_place _ _ _ _ _ _ _ _ Hres Hin).
    unfold plain. rewrite Hno. by rewrite !andb_false_r.
  - intros member name req Hin. exact (Hall _ Hin).
  - intros call Hin. rewrite <- Hno. exact (Hall _ Hin).
Qed.

(** [incus move --target node2 --profile default --no-profiles web1] on a
    cluster: the request carries the profile [default]. *)
Lemma profile_flags_together_witness :
  ∃ req,
    EMigrate "node2" "web1" req
      ∈ (run (Run (Sample.world Sample.cluster None None)
                Sample.move_profiles ["web1"])).1
    ∧ Profiles req = mkslice ["default"].
Proof.
  set (w := Sample.world Sample.cluster None None).
  assert (∃ req, (run (Run w Sample.move_profiles ["web1"])).1 !! 2%nat
                 = Some (EMigrate "node2" "web1" req)) as [req Hreq].
  { vm_compute. eexists. reflexivity. }
  apply list_elem_of_lookup_2 in Hreq.
  assert (0 < len (flagProfile Sample.move_profiles))%nat as Hlen
    by (vm_compute; lia).
  exists req. split; [exact Hreq|].
  exact (proj1 (proj2 (profile_flags_together w Sample.move_profiles ["web1"]
                         Hlen eq_refl))
           "node2" "web1" req Hreq).
Defined.

(** C5: a request whose source and destination are on one connection, with
    no cluster member, pool or project targeted and no config, device or
    profile override, is a rename.  Once the connection is there, the
    command issues the rename of the source to the destination name and,
    when the server accepts it, waits for it; it returns what the rename
    or the wait returns.  That is exactly one rename call, and neither a
    migration request nor a copy nor a delete. *)
Theorem plain_move_in_place_is_rename w c args mode sr sn dn source :
  (resolve w c args).2 = Next (mode, (sr, sn), (sr, dn)) →
  flagTarget c = "" → flagStorage c = "" → flagTargetProject c = "" →
  flagConfig c = nilslice → flagDevice c = nilslice →
  flagProfile c = nilslice → flagNoProfiles c = false →
  GetInstanceServer w sr = inr source →
  let r := run (Run w c args) in
  let post := InstancePost_named dn in
  r = match RenameInstance source sn post with
      | inl err =>
          ([EConnect sr; ERename (target source) sn post],
           Returned (Some err))
      | inr op =>
          ([EConnect sr; ERename (target source) sn post; EWait],
           Returned (Wait op))
      end
  ∧ calls is_rename r.1 = 1%nat
  ∧ calls is_migrate r.1 = 0%nat
  ∧ calls is_copy r.1 = 0%nat
  ∧ calls is_delete r.1 = 0%nat.
Proof.
  intros Hres Htarget Hstorage Hproject Hconfig Hdevice Hprofile Hno Hsource
    r post. subst r post.
  assert (in_place c sr sr = true) as Hin.
  { unfold in_place. rewrite Htarget, Hstorage, Hproject.
    by rewrite bool_decide_eq_true_2. }
  assert (plain c = true) as Hplain.
  { unfold plain. by rewrite Hconfig, Hdevice, Hprofile, Hno. }
  rewrite (Run_resolved _ _ _ _ _ _ Hres),
    (relocate_in_place _ _ _ _ _ _ _ _ Hin), Hplain, Hsource.
  simpl. by destruct (RenameInstance source sn (InstancePost_named dn)).
Qed.

(** [incus move web1 web2] on one server: one rename, awaited. *)
Lemma plain_move_in_place_is_rename_witness :
  run (Run (Sample.world Sample.standalone None None) Sample.move
         ["web1"; "web2"])
  = ([EConnect "local"; ERename "" "web1" (InstancePost_named "web2"); EWait],
     Returned None).
Proof.
  refine (proj1 (plain_move_in_place_is_rename
                   (Sample.world Sample.standalone None None) Sample.move
                   ["web1"; "web2"] "pull" "local" "web1" "web2"
                   Sample.standalone _ _ _ _ _ _ _ _ _)).
  all: vm_compute; reflexivity.
Defined.

(** C6: [incus move --target node2 --device eth9,mtu=9000 web1] on a
    cluster whose [web1] has no device [eth9].  The command does not
    return an error: after fetching the instance it panics, in
    [maps.Copy], on the [nil] map that [inst.ExpandedDevices["eth9"]] is. *)
Theorem unknown_device_panics :
  parseDeviceOverrides (Sample.world Sample.cluster None None)
    (flagDevice (Sample.move_device "eth9,mtu=9000"))
  = inr (mkmap {[ "eth9" := mkmap {[ "mtu" := "9000" ]} ]})
  ∧ expanded Sample.web1 "eth9" = nilmap
  ∧ run (Run (Sample.world Sample.cluster None None)
           (Sample.move_device "eth9,mtu=9000") ["web1"])
    = ([EConnect "local"; EConnect "local"; EGetInstance "node2" "web1"],
       Panicked).
Proof. vm_compute. repeat split. Qed.

(** C9: [incus move web1 local:] on one server.  The destination has no
    instance name, the move is a rename, and the rename asks for the empty
    name, not for [web1]. *)
Theorem empty_destination_name_renamed_verbatim :
  (resolve (Sample.world Sample.standalone None None) Sample.move
     ["web1"; "local:"]).2
  = Next ("pull", ("local", "web1"), ("local", ""))
  ∧ run (Run (Sample.world Sample.standalone None None) Sample.move
           ["web1"; "local:"])
    = ([EConnect "local"; ERename "" "web1" (InstancePost_named ""); EWait],
       Returned None).
Proof. vm_compute. repeat split. Qed.

(** ** The order of the calls *)

Section wp.
Context {R : Type}.

Lemma follows_None tr : foldl (λ acc ev, ph ← acc; next ph ev) None tr = None.
Proof. by induction tr. Qed.

Lemma follows_app ph tr1 tr2 :
  follows ph (tr1 ++ tr2) = ph' ← follows ph tr1; follows ph' tr2.
Proof.
  unfold follows. rewrite foldl_app.
  destruct (foldl _ (Some ph) tr1); simpl; [done|]. apply follows_None.
Qed.

Lemma wp_bind {A B} ph (m : M R A) (k : A → M R B) Q :
  wp ph m (λ s ph1, match s with
                    | Next a => wp ph1 (k a) Q
                    | Return r => Q (Return r) ph1
                    | Panic => Q Panic ph1
                    end) →
  wp ph (m ≫= k) Q.
Proof.
  unfold wp. rewrite bind_trace, bind_step, follows_app.
  destruct (follows ph m.1) as [ph1|]; simpl; [|done].
  by destruct (m.2) as [a|r|].
Qed.

Lemma wp_rpc {A} ph ev (answer : A) (Q : step R A → phase → Prop) :
  match next ph ev with
  | Some ph' => Q (Next answer) ph'
  | None => False
  end →
  wp ph (rpc ev answer) Q.
Proof. unfold wp, follows. simpl. intros H. exact H. Qed.

Lemma wp_ret {A} ph (a : A) (Q : step R A → phase → Prop) :
  Q (Next a) ph → wp ph (ret a) Q.
Proof. done. Qed.

Lemma wp_retn {A} ph (r : R) (Q : step R A → phase → Prop) :
  Q (Return r) ph → wp ph (retn r) Q.
Proof. done. Qed.

Lemma wp_panic {A} ph (Q : step R A → phase → Prop) :
  Q Panic ph → wp ph panic Q.
Proof. done. Qed.

Lemma wp_invoke {R'} ph (body : M R' R') (Q : step R R' → phase → Prop) :
  wp ph body (λ s ph1, Q match s with
                         | Next r | Return r => Next r
                         | Panic => Panic
                         end ph1) →
  wp ph (invoke body) Q.
Proof.
  unfold wp. destruct body as [tr [r|r|]]; simpl; intros H; exact H.
Qed.

End wp.

Lemma wp_mono {R A} ph (m : M R A) (Q Q' : step R A → phase → Prop) :
  wp ph m Q → (∀ s ph', Q s ph' → Q' s ph') → wp ph m Q'.
Proof. unfold wp. destruct (follows ph m.1); [|done]. auto. Qed.

(** Runs a body call by call, keeping the phase. *)
Ltac wp_step_local :=
  lazymatch goal with
  | |- wp _ (mbind _ _) _ => simple apply wp_bind
  | |- wp _ (ret _) _ => simple apply wp_ret
  | |- wp _ (retn _) _ => simple apply wp_retn
  | |- wp _ panic _ => simple apply wp_panic
  | |- wp _ (rpc _ _) _ => simple apply wp_rpc; simpl next; cbv beta iota
  | |- wp _ (invoke _) _ => fail
  | |- wp _ (match ?x with _ => _ end) _ => destruct x eqn:?
  | |- wp _ (when _ _) _ => unfold when at 1
  | |- wp _ (check _) _ => unfold check at 1
  | |- wp _ (check_wrap _ _) _ => unfold check_wrap at 1
  | |- wp _ (or_panic _) _ => unfold or_panic at 1
  | |- wp _ (at_index _ _) _ => unfold at_index at 1
  | |- wp _ (slice_to _ _) _ => unfold slice_to at 1
  | |- _ => progress cbv beta iota
  end.

Ltac wp_auto := repeat wp_step_local.

Lemma isServerSide_wp w c sr dr :
  wp Idle (isServerSide w c sr dr)
     (λ s ph, match s with
              | Next true | Return true => ph = Connected
              | Next false | Return false => ph = Idle ∨ ph = Connected
              | Panic => False
              end).
Proof.
  unfold isServerSide. wp_auto; eauto.
Qed.

Lemma moveInstance_wp w c sourceResource destResource stateful :
  wp Connected (moveInstance w c sourceResource destResource stateful)
     ends_well.
Proof. unfold moveInstance. wp_auto; done. Qed.

Lemma copyThenDelete_wp w c args mode sourceResource destResource stateful ph :
  ph = Idle ∨ ph = Connected →
  wp ph (copyThenDelete w c args mode sourceResource destResource stateful)
     ends_well.
Proof. unfold copyThenDelete. intros [->| ->]; wp_auto; done. Qed.

Lemma ends_well_invoke (s : step (option error) (option error)) ph :
  ends_well s ph →
  ends_well (Return match s with
                    | Next r | Return r => r
                    | Panic => None
                    end) ph
  ∨ s = Panic.
Proof. destruct s as [[]|[]|]; auto. Qed.

Ltac wp_called lemma :=
  apply wp_invoke; eapply wp_mono; [by apply lemma|];
  intros [[?|]|[?|]|] ? [? ?]; done.

Lemma relocate_wp w c args mode src dst :
  wp Idle (relocate w c args mode src dst) ends_well.
Proof.
  unfold relocate. destruct src as [sr sn], dst as [dr dn].
  wp_auto; try done.
  1: { split; [done|]. by destruct (Wait _). }
  all: apply wp_invoke; (eapply wp_mono; [apply isServerSide_wp|]).
  all: intros [[]|[]|] ph Hph; try done; cbv beta iota; wp_auto.
  all: first [ subst ph; wp_called moveInstance_wp
             | wp_called copyThenDelete_wp ].
Qed.

(** The calls of any run of the command come in one of the orders the
    phases allow; the run does not stop between attaching the progress
    handler and finishing it; and it returns no error only when nothing
    was started or what was started was carried through. *)
Lemma Run_wp w c args : wp Idle (Run w c args) ends_well.
Proof.
  unfold Run. wp_step_local.
  unfold resolve. wp_auto; try done.
  all: try (split; [done|]; by repeat case_match).
  all: apply relocate_wp.
Qed.

Lemma follows_cons ph ev tr :
  follows ph (ev :: tr) = ph' ← next ph ev; follows ph' tr.
Proof. apply (follows_app ph [ev] tr). Qed.

(** Along an allowed order of calls there is at most one rename,
    migration request or copy, and at most two connections. *)
Lemma follows_budget tr : ∀ ph ph',
  follows ph tr = Some ph' →
  (calls is_rename tr + calls is_migrate tr + calls is_copy tr + budget ph'
   ≤ budget ph)%nat
  ∧ (calls is_connect tr + connections ph' ≤ connections ph)%nat.
Proof.
  unfold calls.
  induction tr as [|ev tr IH]; intros ph ph' Hrun.
  - injection Hrun as <-. simpl. lia.
  - rewrite follows_cons in Hrun.
    destruct (next ph ev) as [ph1|] eqn:Hnext; [|done]. simpl in Hrun.
    destruct (IH _ _ Hrun) as [Hone Htwo].
    destruct ph, ev; try done; simpl in Hnext; injection Hnext as <-;
      simpl in *; lia.
Qed.

(** X1: the calls of any run of the command come in an order the phases
    allow; the run does not stop between attaching the progress handler
    of a migration and finishing it; and when it returns no error, either
    it made no call at all or it carried through what it started: the
    rename was awaited, the migration was waited for and its progress
    finished, or the source was deleted after the copy. *)
Theorem Run_follows_protocol w c args :
  ∃ ph,
    follows Idle (run (Run w c args)).1 = Some ph
    ∧ settled ph = true
    ∧ match (run (Run w c args)).2 with
      | Returned None => completed ph = true
      | _ => True
      end.
Proof.
  pose proof (Run_wp w c args) as Hwp. unfold wp in Hwp.
  rewrite run_trace.
  destruct (follows Idle (Run w c args).1) as [ph|]; [|done].
  exists ph. destruct Hwp as [Hs Hc]. split; [done|]. split; [done|].
  by destruct (Run w c args) as [tr [[e|]|[e|]|]].
Qed.

(** X2: a run of the command takes one way at most: it makes at most one
    call among rename, migration request and copy, and connects at most
    twice. *)
Theorem Run_one_strategy w c args :
  let tr := (run (Run w c args)).1 in
  (calls is_rename tr + calls is_migrate tr + calls is_copy tr ≤ 1)%nat
  ∧ (calls is_connect tr ≤ 2)%nat.
Proof.
  intros tr. subst tr.
  pose proof (Run_wp w c args) as Hwp. unfold wp in Hwp.
  rewrite run_trace.
  destruct (follows Idle (Run w c args).1) as [ph|] eqn:Hrun; [|done].
  destruct (follows_budget _ _ _ Hrun) as [Hone Htwo]. simpl in *. lia.
Qed.

(** ** What each call of a run presupposes *)

(** Closes a goal with a call [H] assumed in a trace it is not in. *)
Ltac not_in_trace H :=
  simpl in H;
  repeat (apply elem_of_cons in H as [H|H]; [discriminate H|]);
  by apply elem_of_nil in H.

(** When the closure answers yes: one connection, the default mode, and
    a server with every extension the request needs. *)
Lemma isServerSide_true w c sr dr :
  (run (isServerSide w c sr dr)).2 = Returned true →
  sr = dr
  ∧ flagMode c = moveDefaultMode
  ∧ ∃ source,
      GetInstanceServer w sr = inr source
      ∧ ((0 < len (flagConfig c) ∨ 0 < len (flagDevice c)
          ∨ 0 < len (flagProfile c))%nat →
         HasExtension source "instance_move_config" = true)
      ∧ (flagStorage c ≠ "" →
         HasExtension source "instance_pool_move" = true)
      ∧ (flagTargetProject c ≠ "" →
         HasExtension source "instance_project_move" = true).
Proof.
  unfold isServerSide. run_cases; try done; intros _.
  all: repeat match goal with
         | H : bool_decide _ = false |- _ => apply bool_decide_eq_false_1 in H
         | H : bool_decide _ = true |- _ => apply bool_decide_eq_true_1 in H
         | H : negb _ = false |- _ => apply negb_false_iff in H
         | H : negb _ = true |- _ => apply negb_true_iff in H
         | H : _ && _ = false |- _ => apply andb_false_iff in H
         end.
  all: split; [by destruct (decide (sr = dr))|].
  all: split; [by destruct (decide (flagMode c = moveDefaultMode))|].
  all: eexists; split; [done|].
  all: repeat split; intros; try done; try lia.
  all: repeat match goal with
         | H : _ ∨ _ |- _ => destruct H as [H|H]
         | H : bool_decide _ = false |- _ => apply bool_decide_eq_false_1 in H
         | H : negb _ = false |- _ => apply negb_false_iff in H
         end; done.
Qed.

(** X3: a migration request is submitted only for a request whose source
    and destination are one connection, with a cluster member, pool or
    project targeted, in the default transfer mode, to a server that
    announces "instance_move_config" when anything is overridden,
    "instance_pool_move" when a pool is given and "instance_project_move"
    when a project is given. *)
Theorem migration_needs_capabilities w c args member name req :
  EMigrate member name req ∈ (run (Run w c args)).1 →
  ∃ mode sr sn dn source,
    (resolve w c args).2 = Next (mode, (sr, sn), (sr, dn))
    ∧ in_place c sr sr = false
    ∧ flagMode c = moveDefaultMode
    ∧ GetInstanceServer w sr = inr source
    ∧ ((0 < len (flagConfig c) ∨ 0 < len (flagDevice c)
        ∨ 0 < len (flagProfile c))%nat →
       HasExtension source "instance_move_config" = true)
    ∧ (flagStorage c ≠ "" →
       HasExtension source "instance_pool_move" = true)
    ∧ (flagTargetProject c ≠ "" →
       HasExtension source "instance_project_move" = true).
Proof.
  intros Hin.
  destruct ((resolve w c args).2) as [[[mode [sr sn]] [dr dn]]| |] eqn:Hres.
  2,3: rewrite Run_unresolved in Hin;
         [by apply elem_of_nil in Hin|intros x; by rewrite Hres].
  rewrite (Run_resolved _ _ _ _ _ _ Hres) in Hin.
  destruct (resolve_Next _ _ _ _ _ _ _ _ Hres) as (a0 & Ha0 & _).
  destruct (in_place c sr dr) eqn:Hplace.
  - rewrite (relocate_in_place _ _ _ _ _ _ _ _ Hplace) in Hin.
    exfalso.
    destruct (plain c); [|not_in_trace Hin].
    destruct (GetInstanceServer w sr) as [err|source]; [not_in_trace Hin|].
    simpl in Hin.
    destruct (RenameInstance source sn (InstancePost_named dn));
      not_in_trace Hin.
  - destruct (relocate_elsewhere w c args mode sr sn dr dn a0 Hplace Ha0)
      as (destResource & pre & serverSide & Hside & Hpre & Hrun).
    rewrite Hrun in Hin. simpl in Hin.
    destruct serverSide.
    + assert ((run (isServerSide w c sr dr)).2 = Returned true) as Hyes
        by (by rewrite Hside).
      apply isServerSide_true in Hyes as (<- & Hmode & source & Hsrc & Hext).
      by exists mode, sr, sn, dn, source.
    + exfalso. apply elem_of_app in Hin as [Hin|Hin].
      * rewrite Forall_forall in Hpre. by apply Hpre in Hin.
      * destruct (copyThenDelete_run w c args mode a0 destResource
                    (negb (flagStateless c)) a0 Ha0)
          as (call & del & _ & _ & Hcd).
        rewrite Hcd in Hin.
        destruct (copyInstance w call); not_in_trace Hin.
Qed.

(** X4: a rename is issued only for a request whose source and destination
    are one connection, with no cluster member, pool or project targeted
    and no override flag set; it is sent to the server of that connection,
    for the source name, and asks for the destination name as parsed. *)
Theorem rename_needs_plain_in_place w c args member name post :
  ERename member name post ∈ (run (Run w c args)).1 →
  ∃ mode sr sn dn source,
    (resolve w c args).2 = Next (mode, (sr, sn), (sr, dn))
    ∧ flagTarget c = "" ∧ flagStorage c = "" ∧ flagTargetProject c = ""
    ∧ plain c = true
    ∧ GetInstanceServer w sr = inr source
    ∧ member = target source ∧ name = sn ∧ post = InstancePost_named dn.
Proof.
  intros Hin.
  destruct ((resolve w c args).2) as [[[mode [sr sn]] [dr dn]]| |] eqn:Hres.
  2,3: rewrite Run_unresolved in Hin;
         [by apply elem_of_nil in Hin|intros x; by rewrite Hres].
  rewrite (Run_resolved _ _ _ _ _ _ Hres) in Hin.
  destruct (resolve_Next _ _ _ _ _ _ _ _ Hres) as (a0 & Ha0 & _).
  destruct (in_place c sr dr) eqn:Hplace.
  - rewrite (relocate_in_place _ _ _ _ _ _ _ _ Hplace) in Hin.
    unfold in_place in Hplace.
    repeat (apply andb_true_iff in Hplace as [Hplace ?]).
    repeat match goal with
           | H : bool_decide _ = true |- _ => apply bool_decide_eq_true_1 in H
           end.
    subst dr.
    destruct (plain c); [|not_in_trace Hin].
    destruct (GetInstanceServer w sr) as [err|source] eqn:Hsrc;
      [not_in_trace Hin|].
    exists mode, sr, sn, dn, source.
    assert (ERename member name post
            ∈ [ERename (target source) sn (InstancePost_named dn)]) as Heq.
    { simpl in Hin.
      destruct (RenameInstance source sn (InstancePost_named dn));
        (apply elem_of_cons in Hin as [Hin|Hin]; [discriminate Hin|]);
        (apply elem_of_cons in Hin as [->|Hin]; [left|not_in_trace Hin]). }
    apply list_elem_of_singleton in Heq. by injection Heq as -> -> ->.
  - exfalso.
    destruct (relocate_elsewhere w c args mode sr sn dr dn a0 Hplace Ha0)
      as (destResource & pre & serverSide & Hside & Hpre & Hrun).
    rewrite Hrun in Hin. simpl in Hin.
    apply elem_of_app in Hin as [Hin|Hin].
    { rewrite Forall_forall in Hpre. by apply Hpre in Hin. }
    destruct serverSide.
    + rewrite run_trace in Hin.
      pose proof (moveInstance_calls w c a0 destResource
                    (negb (flagStateless c))) as Hcalls.
      rewrite Forall_forall in Hcalls. by apply Hcalls in Hin.
    + destruct (copyThenDelete_run w c args mode a0 destResource
                  (negb (flagStateless c)) a0 Ha0)
        as (call & del & _ & _ & Hcd).
      rewrite Hcd in Hin.
      destruct (copyInstance w call); not_in_trace Hin.
Qed.

(** What the copy is called on and what the delete is called on. *)
Lemma Run_copy_delete_args w c args :
  Forall (λ ev, match ev with
                | ECopy call =>
                    args !! 0%nat = Some (cc_sourceResource call)
                    ∧ cc_keepVolatile call = true
                    ∧ cc_move call = true
                | EDelete del delArgs =>
                    delArgs = take 1 args
                    ∧ del_flagForce del = true
                    ∧ del_flagForceProtected del = true
                | _ => True
                end)
         (Run w c args).1.
Proof.
  unfold Run, resolve, relocate, isServerSide, copyThenDelete, moveInstance,
    at_index, slice_to.
  trace_auto; simpl.
  all: repeat match goal with
         | H : (or_panic _).2 = Next _ |- _ => apply or_panic_Next in H
         end.
  all: try done.
  match goal with
  | H : (if ?b then _ else _).2 = Next _ |- _ =>
      destruct b; [injection H as <-|]; done
  end.
Qed.

(** X5: the delete of a run is called on the source that was copied, and
    on nothing else: its arguments are the one argument the copy was given
    as source, the first of the command, and it is forced. *)
Theorem delete_targets_copied_source w c args call del delArgs :
  ECopy call ∈ (run (Run w c args)).1 →
  EDelete del delArgs ∈ (run (Run w c args)).1 →
  delArgs = [cc_sourceResource call]
  ∧ args !! 0%nat = Some (cc_sourceResource call)
  ∧ del_flagForce del = true
  ∧ del_flagForceProtected del = true.
Proof.
  rewrite run_trace. intros Hcopy Hdel.
  pose proof (Run_copy_delete_args w c args) as Hall.
  rewrite Forall_forall in Hall.
  destruct (Hall _ Hcopy) as (Hsrc & _ & _).
  destruct (Hall _ Hdel) as (-> & Hforce & Hprotected).
  repeat split; try done.
  destruct args as [|a0 args]; [done|]. injection Hsrc as ->.
  simpl. by rewrite take_0.
Qed.

(** Every call of [moveInstance] comes after its arguments were parsed and
    the source name was found not to be empty. *)
Lemma moveInstance_validated w c sourceResource destResource stateful :
  Forall (λ _, ∃ sr sn dr dn,
            ParseRemote w sourceResource = inr (sr, sn)
            ∧ ParseRemote w destResource = inr (dr, dn)
            ∧ sn ≠ "")
         (moveInstance w c sourceResource destResource stateful).1.
Proof.
  unfold moveInstance.
  apply bind_Forall; [trace_auto|]. intros [sr sn] Hsrc%check_Next.
  apply bind_Forall; [trace_auto|]. intros [dr dn] Hdst%check_Next.
  apply bind_Forall; [trace_auto|]. intros [] Hname.
  assert (sn ≠ "") as Hsn.
  { intros ->. by rewrite bool_decide_eq_true_2 in Hname. }
  assert (∃ sr sn dr dn,
            ParseRemote w sourceResource = inr (sr, sn)
            ∧ ParseRemote w destResource = inr (dr, dn)
            ∧ sn ≠ "") as Hok by eauto 8.
  clear Hsrc Hdst Hname Hsn. trace_auto; exact Hok.
Qed.

(** X6: [moveInstance] makes no call, not even the connection, unless both
    references parse and the source has an instance name. *)
Theorem moveInstance_validates_first w c sourceResource destResource
    stateful :
  (run (moveInstance w c sourceResource destResource stateful)).1 ≠ [] →
  ∃ sr sn dr dn,
    ParseRemote w sourceResource = inr (sr, sn)
    ∧ ParseRemote w destResource = inr (dr, dn)
    ∧ sn ≠ "".
Proof.
  rewrite run_trace. intros Hne.
  pose proof (moveInstance_validated w c sourceResource destResource stateful)
    as Hall.
  destruct ((moveInstance w c sourceResource destResource stateful).1)
    as [|ev tr]; [done|].
  by apply Forall_cons in Hall as [Hev _].
Qed.

(** What a migration request holds. *)
Lemma moveInstance_request w c sourceResource destResource stateful :
  Forall (λ ev, match ev with
                | EMigrate member name req =>
                    name ≠ ""
                    ∧ Name req ≠ ""
                    ∧ (∃ sr dr dn,
                         ParseRemote w sourceResource = inr (sr, name)
                         ∧ ParseRemote w destResource = inr (dr, dn)
                         ∧ Name req = if bool_decide (dn = "") then name
                                      else dn)
                    ∧ Migration req = true
                    ∧ Live req = stateful
                    ∧ InstanceOnly req = flagInstanceOnly c
                    ∧ Pool req = flagStorage c
                    ∧ Project req = flagTargetProject c
                | _ => True
                end)
         (moveInstance w c sourceResource destResource stateful).1.
Proof.
  unfold moveInstance.
  apply bind_Forall; [trace_auto|]. intros [sr sn] Hsrc%check_Next.
  apply bind_Forall; [trace_auto|]. intros [dr dn] Hdst%check_Next.
  apply bind_Forall; [trace_auto|]. intros [] Hname.
  assert (sn ≠ "") as Hsn.
  { intros ->. by rewrite bool_decide_eq_true_2 in Hname. }
  clear Hname. trace_auto; simpl.
  all: split; [done|].
  all: split;
    [destruct (bool_decide (dn = "")) eqn:Hdn;
       [done|by apply bool_decide_eq_false_1 in Hdn]|].
  all: split; [by exists sr, dr, dn|done].
Qed.

(** X7: every migration request names the instance to move and the
    instance to make: the source name is not empty, and the destination
    name is the one parsed or, when that is empty, the source name.  The
    request is marked as a migration and carries the pool, the project,
    the instance-only flag and the statefulness of the move. *)
Theorem migration_request_is_named w c sourceResource destResource stateful
    member name req :
  EMigrate member name req
    ∈ (run (moveInstance w c sourceResource destResource stateful)).1 →
  name ≠ ""
  ∧ Name req ≠ ""
  ∧ (∃ sr dr dn,
       ParseRemote w sourceResource = inr (sr, name)
       ∧ ParseRemote w destResource = inr (dr, dn)
       ∧ Name req = if bool_decide (dn = "") then name else dn)
  ∧ Migration req = true
  ∧ Live req = stateful
  ∧ InstanceOnly req = flagInstanceOnly c
  ∧ Pool req = flagStorage c
  ∧ Project req = flagTargetProject c.
Proof.
  rewrite run_trace. intros Hin.
  pose proof (moveInstance_request w c sourceResource destResource stateful)
    as Hall.
  rewrite Forall_forall in Hall. exact (Hall _ Hin).
Qed.

(** ** [strings.Cut] and the config overrides *)

Lemma substring_all s : String.substring 0 (String.length s) s = s.
Proof. induction s as [|x s IH]; [done|]. simpl. by rewrite IH. Qed.

Lemma index_char_here c x s :
  String.index 0 (String c "") (String x s)
  = if Ascii.ascii_dec c x then Some 0%nat
    else match String.index 0 (String c "") s with
         | Some n => Some (S n)
         | None => None
         end.
Proof.
  simpl. unfold String.prefix.
  destruct (Ascii.ascii_dec c x); [|done]. by destruct s.
Qed.

(** Cutting at a character that the part before it does not hold gives
    back that part and the rest. *)
Lemma strings_Cut_char c before after :
  has_char c before = false →
  strings_Cut (before ++ String c after) (String c "")
  = (before, after, true).
Proof.
  unfold strings_Cut. induction before as [|x before IH]; intros Hno.
  - change ("" ++ String c after) with (String c after).
    rewrite index_char_here. destruct (Ascii.ascii_dec c c); [|done].
    simpl. by rewrite Nat.sub_0_r, substring_all.
  - simpl in Hno. destruct (Ascii.ascii_dec c x) as [|Hne]; [done|].
    specialize (IH Hno).
    change (String x before ++ String c after)
      with (String x (before ++ String c after)).
    rewrite index_char_here. destruct (Ascii.ascii_dec c x); [done|].
    destruct (String.index 0 (String c "") (before ++ String c after))
      as [i|]; [|done].
    injection IH as Hb Ha. simpl. by rewrite Hb, Ha.
Qed.

Lemma strings_Cut_no_char c s :
  has_char c s = false → strings_Cut s (String c "") = (s, "", false).
Proof.
  unfold strings_Cut. intros Hno.
  assert (String.index 0 (String c "") s = None) as ->; [|done].
  induction s as [|x s IH]; [done|].
  simpl in Hno. rewrite index_char_here.
  destruct (Ascii.ascii_dec c x); [done|]. by rewrite IH.
Qed.

Lemma parseConfig_app pre post config :
  parseConfig (pre ++ post) config
  = match parseConfig pre config with
    | inl err => inl err
    | inr config' => parseConfig post config'
    end.
Proof.
  revert config. induction pre as [|entry pre IH]; intros config; [done|].
  simpl. destruct (strings_Cut entry "=") as [[key value] []]; simpl; [|done].
  apply IH.
Qed.

Lemma parseConfig_other post key : ∀ config config',
  Forall (λ entry, entry_key entry ≠ key) post →
  parseConfig post config = inr config' →
  config' !! key = config !! key.
Proof.
  induction post as [|entry post IH]; intros config config' Hpost Hrun.
  - by injection Hrun as <-.
  - apply Forall_cons in Hpost as [Hentry Hpost]. simpl in Hrun.
    unfold entry_key in Hentry.
    destruct (strings_Cut entry "=") as [[k v] []]; simpl in *; [|done].
    rewrite (IH _ _ Hpost Hrun). by rewrite lookup_insert_ne.
Qed.

(** The entry [key=value] that is followed by entries for other keys
    only gives the key its value. *)
Lemma parseConfig_last pre key value post config :
  parseConfig (pre ++ (key ++ "=" ++ value)%string :: post)%list ∅
  = inr config →
  has_char "="%char key = false →
  Forall (λ entry, entry_key entry ≠ key) post →
  config !! key = Some value.
Proof.
  intros Hrun Hkey Hpost.
  rewrite parseConfig_app in Hrun.
  destruct (parseConfig pre ∅) as [err|config1]; [done|].
  simpl in Hrun.
  change (key ++ "=" ++ value) with (key ++ String "="%char value) in Hrun.
  change "=" with (String "="%char "") in Hrun.
  rewrite (strings_Cut_char "="%char key value Hkey) in Hrun. simpl in Hrun.
  rewrite (parseConfig_other _ _ _ _ Hpost Hrun).
  apply lookup_insert_eq.
Qed.

(** The config of a migration request: what the loop makes of the
    overrides, and [nil] without overrides. *)
Lemma moveInstance_config w c sourceResource destResource stateful :
  Forall (λ ev, match ev with
                | EMigrate member name req =>
                    if bool_decide (0 < len (flagConfig c))%nat
                    then ∃ config,
                           parseConfig (elems (flagConfig c)) ∅ = inr config
                           ∧ Config req = mkmap config
                    else Config req = nilmap
                | _ => True
                end)
         (moveInstance w c sourceResource destResource stateful).1.
Proof.
  unfold moveInstance.
  destruct (bool_decide (0 < len (flagConfig c))%nat) eqn:Hlen.
  - destruct (parseConfig (elems (flagConfig c)) ∅) as [err|config] eqn:Hrun;
      trace_auto;
      match goal with
      | H : (check (ret (inr config)) ≫= _).2 = Next _ |- _ =>
          injection H as <-
      end; by exists config.
  - trace_auto;
      match goal with
      | H : (ret _).2 = Next _ |- _ => injection H as <-
      end; done.
Qed.

(** X8: the config of a migration request gives a key the value of the
    last override that names it: when the overrides hold an entry
    [key=value] (no [=] in [key]; [value] may hold some) followed by
    entries for other keys only, every migration request submitted has
    [Config[key] = value], whatever came before the entry. *)
Theorem migration_config_last_wins w c sourceResource destResource stateful
    member name req pre key value post :
  EMigrate member name req
    ∈ (run (moveInstance w c sourceResource destResource stateful)).1 →
  flagConfig c = mkslice (pre ++ (key ++ "=" ++ value)%string :: post)%list →
  has_char "="%char key = false →
  Forall (λ entry, entry_key entry ≠ key) post →
  entries (Config req) !! key = Some value.
Proof.
  intros Hin Hflag Hkey Hpost.
  pose proof (moveInstance_config w c sourceResource destResource stateful)
    as Hall.
  rewrite run_trace in Hin.
  rewrite Forall_forall in Hall. specialize (Hall _ Hin). cbn beta iota in Hall.
  rewrite Hflag in Hall.
  rewrite bool_decide_eq_true_2 in Hall
    by (unfold len; cbn [elems]; rewrite length_app; cbn; lia).
  destruct Hall as (config & Hrun & ->). cbn [elems entries] in *.
  by apply (parseConfig_last pre key value post).
Qed.

(** X9: the overrides fail to parse exactly when one of them has no [=],
    and the error then names the first such entry. *)
Theorem parseConfig_error flag config err :
  parseConfig flag config = inl err ↔
  ∃ pre entry post,
    flag = (pre ++ entry :: post)%list
    ∧ Forall (λ e, entry_found e = true) pre
    ∧ entry_found entry = false
    ∧ err = Errorf_q "Bad key=value pair: " entry.
Proof.
  revert config. induction flag as [|e flag IH]; intros config.
  - split; [done|]. intros (pre & entry & post & Heq & _).
    by destruct pre.
  - simpl. unfold entry_found in *.
    destruct (strings_Cut e "=") as [[k v] found] eqn:Hcut.
    destruct found; simpl.
    + rewrite IH. split.
      * intros (pre & entry & post & -> & Hpre & Hentry & ->).
        exists (e :: pre), entry, post. repeat split; try done.
        apply Forall_cons. by rewrite Hcut.
      * intros (pre & entry & post & Heq & Hpre & Hentry & ->).
        destruct pre as [|e' pre]; simpl in Heq; injection Heq as <- ->.
        { by rewrite Hcut in Hentry. }
        apply Forall_cons in Hpre as [_ Hpre]. by exists pre, entry, post.
    + split.
      * intros [= <-]. exists [], e, flag. repeat split; try done.
        by rewrite Hcut.
      * intros (pre & entry & post & Heq & Hpre & Hentry & ->).
        destruct pre as [|e' pre]; simpl in Heq; injection Heq as <- ->.
        { done. }
        apply Forall_cons in Hpre as [He _]. by rewrite Hcut in He.
Qed.

(** ** [getRootfs] *)

Lemma strings_SplitN2_last s sep :
  let parts := strings_SplitN2 s sep in
  parts !! (length parts - 1)%nat
  = Some match strings_Cut s sep with
         | (_, after, true) => after
         | (_, _, false) => s
         end.
Proof.
  unfold strings_SplitN2. by destruct (strings_Cut s sep) as [[b a] []].
Qed.

(** The values [getRootfs] reads: those of [lxc.rootfs.path], or those of
    [lxc.rootfs] when there are none. *)
Lemma getRootfs_value h conf value0 rest :
  getConfig h conf "lxc.rootfs.path" = mkslice (value0 :: rest)
  ∨ (getConfig h conf "lxc.rootfs.path" = nilslice
     ∧ getConfig h conf "lxc.rootfs" = mkslice (value0 :: rest)) →
  getRootfs h conf
  = Some (inr match strings_Cut value0 ":" with
              | (_, after, true) => after
              | (_, _, false) => value0
              end).
Proof.
  unfold getRootfs. intros [->|[-> ->]]; simpl;
    by rewrite strings_SplitN2_last.
Qed.

(** X10: the root filesystem of a container is the first value of
    [lxc.rootfs.path], or of [lxc.rootfs] when that key is not set, without
    its storage backend: of [backend:path] it is [path], colons of [path]
    included, and of a value with no colon it is the value. *)
Theorem getRootfs_strips_backend h conf value0 rest :
  getConfig h conf "lxc.rootfs.path" = mkslice (value0 :: rest)
  ∨ (getConfig h conf "lxc.rootfs.path" = nilslice
     ∧ getConfig h conf "lxc.rootfs" = mkslice (value0 :: rest)) →
  (∀ backend path,
     value0 = backend ++ ":" ++ path → has_char ":"%char backend = false →
     getRootfs h conf = Some (inr path))
  ∧ (has_char ":"%char value0 = false →
     getRootfs h conf = Some (inr value0)).
Proof.
  intros Hvalue. rewrite (getRootfs_value _ _ _ _ Hvalue).
  change ":" with (String ":"%char ""). split.
  - intros backend path -> Hno.
    change (backend ++ String ":"%char "" ++ path)
      with (backend ++ String ":"%char path).
    by rewrite (strings_Cut_char _ _ _ Hno).
  - intros Hno. by rewrite (strings_Cut_no_char _ _ Hno).
Qed.

(** X11: [getRootfs] fails exactly when neither [lxc.rootfs.path] nor
    [lxc.rootfs] is set, with the error "Invalid container, missing
    lxc.rootfs key". *)
Theorem getRootfs_missing h conf err :
  getRootfs h conf = Some (inl err) ↔
  getConfig h conf "lxc.rootfs.path" = nilslice
  ∧ getConfig h conf "lxc.rootfs" = nilslice
  ∧ err = errors_New "Invalid container, missing lxc.rootfs key".
Proof.
  unfold getRootfs.
  destruct (getConfig h conf "lxc.rootfs.path") as [|[|v vs]];
    destruct (getConfig h conf "lxc.rootfs") as [|[|v' vs']]; simpl;
    rewrite ?strings_SplitN2_last; simpl;
    (split; [intros [= <-]; auto | intros (Hpath & Hold & ->)]);
    first [discriminate Hpath | discriminate Hold | reflexivity].
Qed.

(** ** [networkDevice] *)

Lemma foldl_panic_keys kvs :
  foldl (λ acc kv, device ← acc; convertKey device kv.1 kv.2) None kvs = None.
Proof. induction kvs; simpl; auto. Qed.

Lemma convertKeys_cons k v kvs device :
  convertKeys ((k, v) :: kvs) device
  = device' ← convertKey device k v; convertKeys kvs device'.
Proof.
  unfold convertKeys. simpl.
  destruct (convertKey device k v); simpl; [done|]. apply foldl_panic_keys.
Qed.

Ltac decide_key x :=
  repeat match goal with
         | |- context [bool_decide (x = ?s)] =>
             destruct (decide (x = s)) as [->|?];
             [rewrite (bool_decide_eq_true_2 (_ = s)) by done
             |rewrite (bool_decide_eq_false_2 (_ = s)) by done];
             simpl
         end.

(** One turn writes the key of the device that is taken from [k]. *)
Lemma convertKey_lookup device k v device' i :
  convertKey device k v = Some device' →
  k ≠ ""
  ∧ device' !! i = if bool_decide (source_key i = Some k) then Some v
                   else device !! i.
Proof.
  unfold convertKey, source_key. revert device'.
  decide_key k; intros device' Hturn; try done;
    injection Hturn as <-; (split; [done|]);
    decide_key i;
    try (rewrite bool_decide_eq_true_2 by done);
    try (rewrite bool_decide_eq_false_2 by congruence);
    rewrite ?lookup_insert_eq, ?lookup_insert_ne by done; try done.
Qed.

(** The loop stops with [return nil] exactly when the empty key is among
    the keys. *)
Lemma convertKeys_None kvs device :
  convertKeys kvs device = None ↔ "" ∈ kvs.*1.
Proof.
  revert device. induction kvs as [|[k v] kvs IH]; intros device.
  - cbn. split; [done|]. intros H%elem_of_nil. done.
  - rewrite convertKeys_cons, fmap_cons, elem_of_cons. cbn [fst].
    destruct (convertKey device k v) as [device'|] eqn:Hturn; cbn.
    + apply (convertKey_lookup _ _ _ _ "") in Hturn as [Hk _].
      rewrite IH. split; [auto|]. intros [?|?]; [congruence|done].
    + split; [intros _; left|done].
      revert Hturn. unfold convertKey. decide_key k; done.
Qed.

(** What the loop leaves under a key of the device, for an enumeration
    without repeated keys. *)
Lemma convertKeys_lookup kvs device device' i :
  NoDup kvs.*1 →
  convertKeys kvs device = Some device' →
  device' !! i
  = match source_key i with
    | Some from =>
        match (list_to_map kvs : gmap string string) !! from with
        | Some v => Some v
        | None => device !! i
        end
    | None => device !! i
    end.
Proof.
  revert device. induction kvs as [|[k v] kvs IH]; intros device.
  - intros _ [= <-]. cbn [list_to_map foldr].
    destruct (source_key i); [|done]. by rewrite lookup_empty.
  - rewrite fmap_cons, NoDup_cons, convertKeys_cons. cbn [fst].
    intros [Hfresh Hnodup].
    destruct (convertKey device k v) as [device1|] eqn:Hturn; [|done].
    cbn. intros Hrest.
    rewrite (IH _ Hnodup Hrest).
    apply (convertKey_lookup _ _ _ _ i) in Hturn as [_ ->].
    cbn [list_to_map foldr uncurry].
    destruct (source_key i) as [from|]; [|by rewrite bool_decide_eq_false_2].
    case_bool_decide as Hfrom.
    + injection Hfrom as ->. rewrite lookup_insert_eq.
      by rewrite (not_elem_of_list_to_map_1 _ _ Hfresh).
    + rewrite lookup_insert_ne by congruence. done.
Qed.

(** The runs of the loop over two enumerations of one map agree. *)
Lemma convertKeys_order g kvs device :
  kvs ≡ₚ map_to_list g →
  convertKeys kvs device = convertKeys (map_to_list g) device.
Proof.
  intros Hperm.
  assert (NoDup kvs.*1) as Hnodup.
  { rewrite Hperm. apply NoDup_fst_map_to_list. }
  assert ((list_to_map kvs : gmap string string) = g) as Hmap.
  { rewrite (list_to_map_proper _ _ Hnodup Hperm).
    apply list_to_map_to_list. }
  destruct (convertKeys kvs device) as [d|] eqn:Hkvs;
    destruct (convertKeys (map_to_list g) device) as [d'|] eqn:Hg; try done.
  - f_equal. apply map_eq. intros i.
    rewrite (convertKeys_lookup _ _ _ i Hnodup Hkvs).
    rewrite (convertKeys_lookup _ _ _ i (NoDup_fst_map_to_list g) Hg).
    by rewrite Hmap, list_to_map_to_list.
  - apply convertKeys_None in Hg. rewrite <- Hperm in Hg.
    apply (convertKeys_None _ device) in Hg. congruence.
  - apply convertKeys_None in Hkvs. rewrite Hperm in Hkvs.
    apply (convertKeys_None _ device) in Hkvs. congruence.
Qed.

(** X12: the device does not depend on the order in which the runtime
    enumerates the keys of the network. *)
Theorem networkDevice_any_order g kvs :
  kvs ≡ₚ map_to_list g →
  networkDevice_in kvs (mkmap g) = networkDevice (mkmap g).
Proof.
  intros Hperm. unfold networkDevice, networkDevice_in. cbn [entries].
  by rewrite (convertKeys_order g kvs _ Hperm).
Qed.

(** The state of the device after the loop over a network without the
    empty key. *)
Lemma networkDevice_loop g :
  g !! "" = None →
  ∃ device,
    convertKeys (map_to_list g)
      (<["nictype" := default "" (g !! "type")]> {[ "type" := "nic" ]})
    = Some device
    ∧ device !! "type" = Some "nic"
    ∧ device !! "nictype" = Some (default "" (g !! "type"))
    ∧ device !! "hwaddr" = g !! "hwaddr"
    ∧ device !! "mtu" = g !! "mtu"
    ∧ device !! "name" = g !! "name"
    ∧ device !! "parent" = g !! "link"
    ∧ device !! "host_name" = g !! "veth_pair"
    ∧ ∀ i, i ∉ ["type"; "nictype"; "hwaddr"; "mtu"; "name"; "parent";
                "host_name"] → device !! i = None.
Proof.
  intros Hempty.
  destruct (convertKeys (map_to_list g)
              (<["nictype" := default "" (g !! "type")]> {[ "type" := "nic" ]}))
    as [device|] eqn:Hloop.
  2: { apply convertKeys_None in Hloop.
       apply list_elem_of_fmap in Hloop as ([k v] & Hk & Hin).
       cbn in Hk. subst k. apply elem_of_map_to_list in Hin. congruence. }
  exists device. split; [done|].
  pose proof (λ i, convertKeys_lookup _ _ _ i (NoDup_fst_map_to_list g) Hloop)
    as Hlook.
  rewrite list_to_map_to_list in Hlook.
  repeat split.
  1-7: rewrite Hlook;
    match goal with
    | |- context [source_key ?k] =>
        let r := eval vm_compute in (source_key k) in
        change (source_key k) with r
    end;
    cbv beta iota;
    rewrite ?lookup_insert_eq, ?lookup_insert_ne, ?lookup_singleton_eq,
      ?lookup_singleton_ne by done;
    try done;
    match goal with |- context [?m !! ?k] => by destruct (m !! k) end.
  intros i Hi. rewrite Hlook.
  rewrite !not_elem_of_cons in Hi. destruct Hi as (?&?&?&?&?&?&?&_).
  unfold source_key. rewrite !bool_decide_eq_false_2 by done. cbn.
  rewrite lookup_insert_ne, lookup_singleton_ne by done. done.
Qed.

Lemma networkDevice_empty_key g :
  is_Some (g !! "") → networkDevice (mkmap g) = nilmap.
Proof.
  intros [v Hv]. unfold networkDevice, networkDevice_in. cbn [entries].
  match goal with
  | |- context [convertKeys ?kvs ?device] =>
      destruct (convertKeys_None kvs device) as [_ ->]; [done|]
  end.
  apply list_elem_of_fmap. exists ("", v). split; [done|].
  by apply elem_of_map_to_list.
Qed.

(** X13: no device is made of a network that is [nil], that has the empty key,
    or whose type is [empty]; a device is made of every other one. *)
Theorem networkDevice_nil network :
  networkDevice network = nilmap ↔
  network = nilmap ∨ is_Some (entries network !! "")
  ∨ index "" network "type" = "empty".
Proof.
  destruct network as [|g]; [by split; [left|]|].
  destruct (g !! "") as [v|] eqn:Hempty.
  { rewrite networkDevice_empty_key by (by exists v).
    cbn [entries]. rewrite Hempty. split; [intros _; right; left; by exists v|done]. }
  destruct (networkDevice_loop g Hempty)
    as (device & Hloop & _ & Hnictype & _ & _ & _ & Hparent & _).
  unfold networkDevice, networkDevice_in, index. cbn [entries].
  rewrite Hloop, Hnictype, Hempty. cbn [default].
  repeat case_bool_decide; split; try done; try (intros _; right; by right);
    intros [?|[[? ?]|?]]; unfold id in *; congruence.
Qed.

(** X14: the device made of a network: a [nic] whose [nictype] is read off the
    type of the network, with the five keys that are carried over, and no
    other key. *)
Theorem networkDevice_content g device :
  networkDevice (mkmap g) = mkmap device →
  device !! "type" = Some "nic"
  ∧ device !! "nictype"
    = Some (let type := default "" (g !! "type") in
            if bool_decide (type = "veth")
            then if bool_decide (is_Some (g !! "link"))
                 then "bridged" else "p2p"
            else if bool_decide (type = "phys") then "physical" else type)
  ∧ device !! "hwaddr" = g !! "hwaddr"
  ∧ device !! "mtu" = g !! "mtu"
  ∧ device !! "name" = g !! "name"
  ∧ device !! "parent" = g !! "link"
  ∧ device !! "host_name" = g !! "veth_pair"
  ∧ ∀ i, i ∉ ["type"; "nictype"; "hwaddr"; "mtu"; "name"; "parent";
              "host_name"] → device !! i = None.
Proof.
  destruct (g !! "") as [v|] eqn:Hempty.
  { rewrite networkDevice_empty_key by (by exists v). done. }
  destruct (networkDevice_loop g Hempty)
    as (loop & Hloop & Htype & Hnictype & Hhwaddr & Hmtu & Hname & Hparent
        & Hhost & Hother).
  unfold networkDevice, networkDevice_in, index. cbn [entries].
  rewrite Hloop, Hnictype, Hparent. cbn [default]. cbv zeta.
  assert (∀ i, i ∉ ["type"; "nictype"; "hwaddr"; "mtu"; "name"; "parent";
                    "host_name"] → i ≠ "nictype") as Hfresh.
  { intros i Hi ->. apply Hi. set_solver. }
  repeat case_bool_decide; try done; intros [= <-];
    rewrite ?lookup_insert_eq, ?lookup_insert_ne by done;
    repeat split; try done;
    intros i Hi; rewrite ?lookup_insert_ne by (symmetry; by apply Hfresh);
    by apply Hother.
Qed.

(** Every device made of a network is a [nic]. *)
Lemma networkDevice_is_nic network device :
  networkDevice network = mkmap device → device !! "type" = Some "nic".
Proof.
  destruct network as [|g]; [done|].
  destruct (g !! "") as [v|] eqn:Hempty.
  { rewrite networkDevice_empty_key by (by exists v). done. }
  destruct (networkDevice_loop g Hempty) as (loop & Hloop & Htype & Hnictype & _).
  unfold networkDevice, networkDevice_in, index. cbn [entries].
  rewrite Hloop, Hnictype. cbn [default].
  repeat case_bool_decide; try done; intros [= <-];
    rewrite ?lookup_insert_ne by done; done.
Qed.

(** ** [convertNetworkConfig] *)

Lemma net_key_inj (i j : nat) : "net" ++ pretty i = "net" ++ pretty j → i = j.
Proof. intros H%(inj (String.append "net")). by apply (inj pretty) in H. Qed.

Lemma net_key_eth0 (i : nat) : "net" ++ pretty i ≠ "eth0".
Proof. unfold String.app. cbn [String.append]. discriminate. Qed.

Lemma fold_invariant {A B} (f : A → B → option A) (P : A → Prop) l a :
  (∀ a x, P a → ∃ b, f a x = Some b ∧ P b) →
  P a →
  ∃ b, foldl (λ acc x, a ← acc; f a x) (Some a) l = Some b ∧ P b.
Proof.
  intros Hstep. revert a. induction l as [|x l IH]; intros a Ha.
  - by exists a.
  - destruct (Hstep a x Ha) as (b & Hb & HPb). cbn. rewrite Hb. by apply IH.
Qed.

Lemma converted_add d0 devices network (n : nat) :
  converted d0 devices →
  ∃ devices',
    match networkDevice network with
    | nilmap => Some devices
    | dev => assign devices ("net" ++ pretty n) dev
    end = Some devices'
    ∧ converted d0 devices'.
Proof.
  intros (d & -> & Heth0 & Hkeys).
  destruct (networkDevice network) as [|g] eqn:Hdev.
  { exists (mkmap d). split; [done|]. by exists d. }
  apply networkDevice_is_nic in Hdev as Htype.
  eexists. split; [done|]. eexists. split; [done|]. split.
  - rewrite lookup_insert_ne by apply net_key_eth0. done.
  - intros k Hk. destruct (decide (k = "net" ++ pretty n)) as [->|Hne].
    + right. exists n, g. by rewrite lookup_insert_eq.
    + rewrite lookup_insert_ne by done. by apply Hkeys.
Qed.

(** X15: on a map of devices that is not [nil] the conversion of the network
    ends without a panic; it leaves [eth0] as a device of type [none],
    writes network devices under keys [net<N>] only, and leaves every
    other key as it was.  On a [nil] map it panics. *)
Theorem convertNetworkConfig_devices ct d0 :
  convertNetworkConfig ct nilmap = None
  ∧ ∃ d,
      convertNetworkConfig ct (mkmap d0) = Some (mkmap d)
      ∧ d !! "eth0" = Some (mkmap {[ "type" := "none" ]})
      ∧ ∀ k, k ≠ "eth0" →
             d !! k = d0 !! k
             ∨ ∃ (n : nat) g, k = "net" ++ pretty n ∧ d !! k = Some (mkmap g)
                      ∧ g !! "type" = Some "nic".
Proof.
  split; [done|].
  unfold convertNetworkConfig. cbn [assign mbind option_bind].
  assert (converted d0 (mkmap (<["eth0" := mkmap {[ "type" := "none" ]}]> d0)))
    as Hstart.
  { eexists. split; [done|]. split; [by rewrite lookup_insert_eq|].
    intros k Hk. left. by rewrite lookup_insert_ne. }
  destruct (fold_invariant (convertNet ct) (converted d0)
              (seq 0 (length (ConfigItem ct "lxc.net"))) _
              (λ a i Ha, converted_add d0 a _ i Ha) Hstart)
    as (devices1 & -> & Hnew).
  cbn [mbind option_bind].
  destruct (fold_invariant (convertNetwork ct) (converted d0)
              (seq 0 (length (ConfigItem ct "lxc.network"))) _
              (λ a i Ha, converted_add d0 a _ (maplen a) Ha) Hnew)
    as (devices2 & -> & (d & -> & Hd)).
  by exists d.
Qed.

(** The loop over the new keys, for indexes without repetition. *)
Lemma convertNets_lookup ct (indexes : list nat) d :
  NoDup indexes →
  ∃ d',
    foldl (λ acc i, devices ← acc; convertNet ct devices i)
      (Some (mkmap d)) indexes = Some (mkmap d')
    ∧ (∀ i, i ∈ indexes →
            d' !! ("net" ++ pretty i)
            = match networkDevice (networkGet ct i "lxc.net") with
              | nilmap => d !! ("net" ++ pretty i)
              | dev => Some dev
              end)
    ∧ (∀ k, (∀ i, i ∈ indexes → k ≠ "net" ++ pretty i) → d' !! k = d !! k).
Proof.
  revert d. induction indexes as [|i rest IH]; intros d Hnodup.
  { exists d. split; [done|]. split; [|done]. by intros i ?%elem_of_nil. }
  apply NoDup_cons in Hnodup as [Hfresh Hnodup].
  assert (∃ d1, convertNet ct (mkmap d) i = Some (mkmap d1)
                ∧ d1 !! ("net" ++ pretty i)
                  = match networkDevice (networkGet ct i "lxc.net") with
                    | nilmap => d !! ("net" ++ pretty i)
                    | dev => Some dev
                    end
                ∧ ∀ k, k ≠ "net" ++ pretty i → d1 !! k = d !! k)
    as (d1 & Hturn & Hhere & Hframe).
  { unfold convertNet.
    destruct (networkDevice (networkGet ct i "lxc.net")) as [|g].
    - by exists d.
    - eexists. split; [done|]. split; [by rewrite lookup_insert_eq|].
      intros k Hk. by rewrite lookup_insert_ne. }
  destruct (IH d1 Hnodup) as (d' & Hloop & Hwritten & Hkept).
  exists d'. cbn [foldl mbind option_bind]. rewrite Hturn.
  split; [done|]. split.
  - intros j [->|Hj]%elem_of_cons.
    + rewrite Hkept; [done|]. intros j Hj ->%net_key_inj. done.
    + rewrite (Hwritten j Hj).
      rewrite Hframe; [done|]. intros ->%net_key_inj. done.
  - intros k Hk. rewrite Hkept, Hframe; [done| |].
    + apply Hk. left.
    + intros j Hj. apply Hk. by right.
Qed.

(** X16: a container configured with the new keys only: the network numbered
    [i] becomes the device [net<i>], and a network of which no device is
    made leaves that key as it was. *)
Theorem convertNetworkConfig_new_keys ct d0 :
  ConfigItem ct "lxc.network" = [] →
  ∃ d,
    convertNetworkConfig ct (mkmap d0) = Some (mkmap d)
    ∧ ∀ i, (i < length (ConfigItem ct "lxc.net"))%nat →
           d !! ("net" ++ pretty i)
           = match networkDevice (networkGet ct i "lxc.net") with
             | nilmap => d0 !! ("net" ++ pretty i)
             | dev => Some dev
             end.
Proof.
  intros Hold. unfold convertNetworkConfig. rewrite Hold.
  cbn [assign mbind option_bind length seq foldl].
  destruct (convertNets_lookup ct (seq 0 (length (ConfigItem ct "lxc.net")))
              (<["eth0" := mkmap {[ "type" := "none" ]}]> d0))
    as (d & -> & Hwritten & _); [apply NoDup_seq|].
  exists d. split; [done|]. intros i Hi.
  rewrite Hwritten by (apply elem_of_seq; lia).
  rewrite lookup_insert_ne by (symmetry; apply net_key_eth0). done.
Qed.

(** ** [convertStorageConfig] *)

Lemma mount_key_inj (i j : nat) :
  "mount" ++ pretty i = "mount" ++ pretty j → i = j.
Proof. intros H%(inj (String.append "mount")). by apply (inj pretty) in H. Qed.

(** The device a turn of the loop adds. *)
Lemma convertMount_Add h conf mount device :
  convertMount h conf mount = Some (Add device) →
  device !! "type" = Some "disk"
  ∧ is_Some (device !! "path")
  ∧ ∃ source,
      strings_Split mount " " !! 0%nat = Some source
      ∧ device !! "source" = Some source
      ∧ (source ∉ ["proc"; "sysfs"])
      ∧ (device !! "optional" = Some "true"
         ∨ (strings_HasPrefix source "/" = true
            ∧ PathExists h source = true)).
Proof.
  unfold convertMount, slices_Contains.
  case_bool_decide; [done|].
  destruct (strings_Split mount " " !! 0%nat) as [parts0|]; [|done].
  destruct (strings_Split mount " " !! 1%nat) as [parts1|]; [|done].
  destruct (strings_Split mount " " !! 3%nat) as [parts3|]; [|done].
  cbn [mbind option_bind].
  case_bool_decide as Hdefault; [done|].
  destruct (bool_decide ("ro" ∈ strings_Split parts3 ","));
    destruct (bool_decide ("optional" ∈ strings_Split parts3 ","));
    destruct (strings_HasPrefix parts0 "/") eqn:Habsolute;
    destruct (PathExists h parts0) eqn:Hexists; cbn [negb]; try done;
    destruct (strings_HasPrefix parts1 "/"); cbn [negb];
    try destruct (getRootfs h conf) as [[err|rootfs]|]; cbn [mbind option_bind];
    try done; intros [= <-];
    (split; [done|]); (split; [by eexists|]);
    exists parts0; (split; [done|]); (split; [done|]); (split; [done|]);
    first [by left | by right].
Qed.

(** The loop from the entry numbered [i]: the devices it adds, in order. *)
Lemma convertMounts_added h conf mounts (i : nat) d0 devices err :
  convertMounts h conf mounts i (mkmap d0) = Some (devices, err) →
  ∃ d (added : list (gmap string string)),
    devices = mkmap d
    ∧ (length added ≤ length mounts)%nat
    ∧ (err = None →
       length added
       = length (filter (λ mount, ¬ skipped h conf mount) mounts))
    ∧ Forall (λ device, ∃ mount, mount ∈ mounts
                ∧ convertMount h conf mount = Some (Add device)) added
    ∧ (∀ j device, added !! j = Some device →
         d !! ("mount" ++ pretty (i + j)%nat) = Some (mkmap device))
    ∧ (∀ k, (∀ j, (j < length added)%nat → k ≠ "mount" ++ pretty (i + j)%nat) →
         d !! k = d0 !! k).
Proof.
  revert i d0. induction mounts as [|mount rest IH]; intros i d0.
  { intros [= <- <-]. exists d0, []. repeat split; done. }
  cbn [convertMounts].
  destruct (convertMount h conf mount) as [[|stop|device]|] eqn:Hturn;
    cbn [mbind option_bind assign]; [| | |done].
  - intros (d & added & -> & Hlen & Hcount & Hadded & Hwritten & Hkept)%IH.
    exists d, added. split; [done|]. split; [cbn; lia|]. split.
    { intros ->. rewrite filter_cons_False by (unfold skipped; rewrite Hturn; auto).
      by apply Hcount. }
    split; [|done].
    eapply Forall_impl; [exact Hadded|]. intros dev (m & Hm & Hdev).
    exists m. split; [by right|done].
  - intros [= <- <-]. exists d0, []. repeat split; try done; cbn; lia.
  - intros (d & added & -> & Hlen & Hcount & Hadded & Hwritten & Hkept)%IH.
    exists d, (device :: added). split; [done|]. split; [cbn; lia|]. split.
    { intros ->. rewrite filter_cons_True by (unfold skipped; rewrite Hturn; auto).
      cbn. f_equal. by apply Hcount. }
    split.
    { constructor; [exists mount; split; [by left|done]|].
      eapply Forall_impl; [exact Hadded|]. intros dev (m & Hm & Hdev).
      exists m. split; [by right|done]. }
    split.
    + intros [|j] dev Hj.
      * injection Hj as <-. rewrite Nat.add_0_r, Hkept.
        { by rewrite lookup_insert_eq. }
        intros j _ Heq%mount_key_inj. lia.
      * cbn in Hj. replace (i + S j)%nat with (S i + j)%nat by lia.
        by apply Hwritten.
    + intros k Hk. rewrite Hkept.
      * rewrite lookup_insert_ne; [done|].
        intros Heq. apply (Hk 0%nat); [cbn; lia|].
        by rewrite Nat.add_0_r.
      * intros j Hj. replace (S i + j)%nat with (i + S j)%nat by lia.
        apply Hk. cbn. lia.
Qed.

(** X17: the devices of the mounts are numbered from [mount0] without a gap,
    and no other key of the devices is touched; when the conversion ends
    without an error, there is one device for each entry that is not
    skipped. *)
Theorem convertStorageConfig_numbering h conf d0 devices err :
  convertStorageConfig h conf (mkmap d0) = Some (devices, err) →
  ∃ d (n : nat),
    devices = mkmap d
    ∧ (n ≤ len (getConfig h conf "lxc.mount.entry"))%nat
    ∧ (err = None →
       n = length (filter (λ mount, ¬ skipped h conf mount)
                     (elems (getConfig h conf "lxc.mount.entry"))))
    ∧ (∀ j, (j < n)%nat → ∃ device,
         d !! ("mount" ++ pretty j) = Some (mkmap device))
    ∧ (∀ k, (∀ j, (j < n)%nat → k ≠ "mount" ++ pretty j) → d !! k = d0 !! k).
Proof.
  intros (d & added & -> & Hlen & Hcount & _ & Hwritten & Hkept)%convertMounts_added.
  exists d, (length added). repeat split; try done.
  intros j Hj. destruct (lookup_lt_is_Some_2 added j Hj) as [device Hdevice].
  exists device. by apply (Hwritten j).
Qed.

(** X18: every device the conversion writes to an empty map of devices is a
    disk with a path and a source; the source is the first field of an
    entry, it is neither [proc] nor [sysfs], and the device is optional or
    its source is an absolute path that exists. *)
Theorem convertStorageConfig_disks h conf devices err k device :
  convertStorageConfig h conf (mkmap ∅) = Some (devices, err) →
  entries devices !! k = Some device →
  ∃ g source mount,
    device = mkmap g
    ∧ g !! "type" = Some "disk"
    ∧ is_Some (g !! "path")
    ∧ mount ∈ elems (getConfig h conf "lxc.mount.entry")
    ∧ strings_Split mount " " !! 0%nat = Some source
    ∧ g !! "source" = Some source
    ∧ (source ∉ ["proc"; "sysfs"])
    ∧ (g !! "optional" = Some "true"
       ∨ (strings_HasPrefix source "/" = true ∧ PathExists h source = true)).
Proof.
  intros (d & added & -> & _ & _ & Hadded & Hwritten & Hkept)%convertMounts_added.
  cbn [entries]. intros Hk.
  destruct (decide (Exists (λ j : nat, k = "mount" ++ pretty j)
                      (seq 0 (length added))))
    as [(j & Hj%elem_of_seq & ->)%Exists_exists|Hother].
  - destruct Hj as [_ Hj]. cbn in Hj. destruct (lookup_lt_is_Some_2 added j Hj) as [g Hg].
    pose proof (Hwritten j g Hg) as Hhere. cbn [Nat.add] in Hhere.
    rewrite Hhere in Hk. injection Hk as <-.
    rewrite Forall_lookup in Hadded.
    destruct (Hadded j g Hg) as (mount & Hmount & Hturn).
    apply convertMount_Add in Hturn
      as (Htype & Hpath & source & Hfield & Hsource & Hdefault & Hchecked).
    by exists g, source, mount.
  - rewrite Hkept, lookup_empty in Hk; [done|].
    intros j Hj ->. apply Hother, Exists_exists. exists j.
    split; [apply elem_of_seq; lia|done].
Qed.

(** ** The properties on sample runs *)

(** [incus move --target node2 web1] on a cluster. *)
Lemma migration_needs_capabilities_witness :
  ∃ mode sr sn dn source,
    (resolve (Sample.world Sample.cluster None None) Sample.move_target
       ["web1"]).2 = Next (mode, (sr, sn), (sr, dn))
    ∧ in_place Sample.move_target sr sr = false
    ∧ flagMode Sample.move_target = moveDefaultMode
    ∧ GetInstanceServer (Sample.world Sample.cluster None None) sr
      = inr source
    ∧ ((0 < len (flagConfig Sample.move_target)
        ∨ 0 < len (flagDevice Sample.move_target)
        ∨ 0 < len (flagProfile Sample.move_target))%nat →
       HasExtension source "instance_move_config" = true)
    ∧ (flagStorage Sample.move_target ≠ "" →
       HasExtension source "instance_pool_move" = true)
    ∧ (flagTargetProject Sample.move_target ≠ "" →
       HasExtension source "instance_project_move" = true).
Proof.
  set (w := Sample.world Sample.cluster None None).
  assert (∃ req, (run (Run w Sample.move_target ["web1"])).1 !! 2%nat
                 = Some (EMigrate "node2" "web1" req)) as [req Hreq].
  { vm_compute. eexists. reflexivity. }
  apply list_elem_of_lookup_2 in Hreq.
  exact (migration_needs_capabilities w Sample.move_target ["web1"]
           "node2" "web1" req Hreq).
Defined.

(** [incus move web1 web2] on one server. *)
Lemma rename_needs_plain_in_place_witness :
  ∃ mode sr sn dn source,
    (resolve (Sample.world Sample.standalone None None) Sample.move
       ["web1"; "web2"]).2 = Next (mode, (sr, sn), (sr, dn))
    ∧ flagTarget Sample.move = "" ∧ flagStorage Sample.move = ""
    ∧ flagTargetProject Sample.move = ""
    ∧ plain Sample.move = true
    ∧ GetInstanceServer (Sample.world Sample.standalone None None) sr
      = inr source
    ∧ "" = target source ∧ "web1" = sn
    ∧ InstancePost_named "web2" = InstancePost_named dn.
Proof.
  set (w := Sample.world Sample.standalone None None).
  assert ((run (Run w Sample.move ["web1"; "web2"])).1 !! 1%nat
          = Some (ERename "" "web1" (InstancePost_named "web2"))) as Hcall.
  { vm_compute. reflexivity. }
  apply list_elem_of_lookup_2 in Hcall.
  exact (rename_needs_plain_in_place w Sample.move ["web1"; "web2"]
           "" "web1" (InstancePost_named "web2") Hcall).
Defined.

(** [incus move --mode relay web1 b:web1] *)
Lemma delete_targets_copied_source_witness :
  ∃ call del,
    ECopy call
      ∈ (run (Run (Sample.world Sample.standalone None None)
                Sample.move_relay ["web1"; "b:web1"])).1
    ∧ ["web1"] = [cc_sourceResource call]
    ∧ del_flagForce del = true.
Proof.
  set (w := Sample.world Sample.standalone None None).
  assert (∃ call, (run (Run w Sample.move_relay ["web1"; "b:web1"])).1 !! 0%nat
                  = Some (ECopy call)) as [call Hcall].
  { vm_compute. eexists. reflexivity. }
  assert (∃ del, (run (Run w Sample.move_relay ["web1"; "b:web1"])).1 !! 1%nat
                 = Some (EDelete del ["web1"])) as [del Hdel].
  { vm_compute. eexists. reflexivity. }
  apply list_elem_of_lookup_2 in Hcall, Hdel.
  destruct (delete_targets_copied_source w Sample.move_relay
              ["web1"; "b:web1"] call del ["web1"] Hcall Hdel)
    as (Hargs & _ & Hforce & _).
  exists call, del. split; [exact Hcall|]. split; [exact Hargs|exact Hforce].
Defined.

(** [moveInstance] for [incus move --target node2 web1] on a cluster. *)
Lemma moveInstance_validates_first_witness :
  ∃ sr sn dr dn,
    ParseRemote (Sample.world Sample.cluster None None) "web1" = inr (sr, sn)
    ∧ ParseRemote (Sample.world Sample.cluster None None) "web1"
      = inr (dr, dn)
    ∧ sn ≠ "".
Proof.
  set (w := Sample.world Sample.cluster None None).
  assert (∃ ev, (run (moveInstance w Sample.move_target "web1" "web1" true)).1
                  !! 0%nat = Some ev) as [ev Hev].
  { vm_compute. eexists. reflexivity. }
  apply (moveInstance_validates_first w Sample.move_target "web1" "web1" true).
  intros Hnil. rewrite Hnil in Hev. discriminate Hev.
Defined.

Lemma migration_request_is_named_witness :
  ∃ req,
    EMigrate "node2" "web1" req
      ∈ (run (moveInstance (Sample.world Sample.cluster None None)
                Sample.move_target "web1" "web1" true)).1
    ∧ Name req ≠ "" ∧ Migration req = true ∧ Live req = true.
Proof.
  set (w := Sample.world Sample.cluster None None).
  assert (∃ req, (run (moveInstance w Sample.move_target "web1" "web1" true)).1
                   !! 1%nat = Some (EMigrate "node2" "web1" req))
    as [req Hreq].
  { vm_compute. eexists. reflexivity. }
  apply list_elem_of_lookup_2 in Hreq.
  destruct (migration_request_is_named w Sample.move_target "web1" "web1" true
              "node2" "web1" req Hreq)
    as (_ & Hname & _ & Hmigration & Hlive & _).
  exists req. split; [exact Hreq|]. split; [exact Hname|].
  split; [exact Hmigration|exact Hlive].
Defined.

(** [incus move --target node2 --config limits.cpu=1 --config limits.cpu=2
    web1] on a cluster. *)
Lemma migration_config_last_wins_witness :
  ∃ req,
    EMigrate "node2" "web1" req
      ∈ (run (moveInstance (Sample.world Sample.cluster None None)
                Examples.move_target_config "web1" "web1" true)).1
    ∧ entries (Config req) !! "limits.cpu" = Some "2".
Proof.
  set (w := Sample.world Sample.cluster None None).
  assert (∃ req,
            (run (moveInstance w Examples.move_target_config "web1" "web1"
                    true)).1 !! 1%nat = Some (EMigrate "node2" "web1" req))
    as [req Hreq].
  { vm_compute. eexists. reflexivity. }
  apply list_elem_of_lookup_2 in Hreq.
  exists req. split; [exact Hreq|].
  apply (migration_config_last_wins w Examples.move_target_config "web1" "web1"
           true "node2" "web1" req ["limits.cpu=1"] "limits.cpu" "2" []
           Hreq).
  - reflexivity.
  - reflexivity.
  - apply Forall_nil_2.
Defined.

Lemma parseConfig_error_witness :
  parseConfig ["limits.cpu=2"; "oops"] ∅
  = inl (Errorf_q "Bad key=value pair: " "oops").
Proof.
  apply parseConfig_error. exists ["limits.cpu=2"], "oops", [].
  split; [reflexivity|]. split.
  - apply Forall_cons. split; [reflexivity|apply Forall_nil_2].
  - split; reflexivity.
Defined.

Lemma getRootfs_strips_backend_witness :
  getRootfs Examples.host [] = Some (inr "/var/lib/lxc/c1/rootfs").
Proof.
  apply (proj1 (getRootfs_strips_backend Examples.host []
                  "dir:/var/lib/lxc/c1/rootfs" [] (or_introl eq_refl))
           "dir" "/var/lib/lxc/c1/rootfs"); reflexivity.
Defined.

Lemma getRootfs_missing_witness :
  getRootfs Examples.bare []
  = Some (inl (errors_New "Invalid container, missing lxc.rootfs key")).
Proof.
  apply getRootfs_missing. split; [reflexivity|]. split; reflexivity.
Defined.

Lemma networkDevice_any_order_witness :
  networkDevice_in [("type", "veth"); ("link", "br0")] (mkmap Examples.uplink)
  = networkDevice (mkmap Examples.uplink).
Proof.
  apply networkDevice_any_order.
  assert (map_to_list Examples.uplink = [("link", "br0"); ("type", "veth")])
    as -> by (vm_compute; reflexivity).
  apply perm_swap.
Defined.

Lemma networkDevice_nil_witness :
  networkDevice (mkmap Examples.unplugged) = nilmap.
Proof.
  apply networkDevice_nil. right. right. vm_compute. reflexivity.
Defined.

Lemma networkDevice_content_witness :
  ∃ device,
    networkDevice (mkmap Examples.uplink) = mkmap device
    ∧ device !! "type" = Some "nic"
    ∧ device !! "parent" = Some "br0"
    ∧ device !! "link" = None.
Proof.
  assert (∃ device, networkDevice (mkmap Examples.uplink) = mkmap device)
    as [device Hdevice].
  { vm_compute. eexists. reflexivity. }
  destruct (networkDevice_content Examples.uplink device Hdevice)
    as (Htype & _ & _ & _ & _ & Hparent & _ & Hother).
  exists device. split; [exact Hdevice|]. split; [exact Htype|]. split.
  - rewrite Hparent. vm_compute. reflexivity.
  - apply Hother. vm_compute. intros Hin.
    repeat (apply elem_of_cons in Hin as [Hin|Hin]; [discriminate Hin|]).
    by apply elem_of_nil in Hin.
Defined.

Lemma convertNetworkConfig_new_keys_witness :
  ∃ d,
    convertNetworkConfig Examples.container (mkmap ∅) = Some (mkmap d)
    ∧ ∀ i, (i < length (ConfigItem Examples.container "lxc.net"))%nat →
           d !! ("net" ++ pretty i)
           = match networkDevice (networkGet Examples.container i "lxc.net") with
             | nilmap => (∅ : gmap string (gomap string)) !! ("net" ++ pretty i)
             | dev => Some dev
             end.
Proof.
  apply (convertNetworkConfig_new_keys Examples.container ∅). reflexivity.
Defined.

Lemma convertStorageConfig_numbering_witness :
  ∃ devices d (n : nat),
    convertStorageConfig Examples.host [] (mkmap ∅) = Some (devices, None)
    ∧ devices = mkmap d
    ∧ (∀ j, (j < n)%nat → ∃ device,
         d !! ("mount" ++ pretty j) = Some (mkmap device))
    ∧ (∀ k, (∀ j, (j < n)%nat → k ≠ "mount" ++ pretty j) →
         d !! k = (∅ : gmap string (gomap string)) !! k).
Proof.
  assert (∃ devices, convertStorageConfig Examples.host [] (mkmap ∅)
                     = Some (devices, None)) as [devices Hrun].
  { vm_compute. eexists. reflexivity. }
  destruct (convertStorageConfig_numbering Examples.host [] ∅ devices None Hrun)
    as (d & n & Hd & _ & _ & Hwritten & Hkept).
  exists devices, d, n. split; [exact Hrun|]. split; [exact Hd|].
  split; [exact Hwritten|exact Hkept].
Defined.

Lemma convertStorageConfig_disks_witness :
  ∃ devices g,
    convertStorageConfig Examples.host [] (mkmap ∅) = Some (devices, None)
    ∧ entries devices !! "mount0" = Some (mkmap g)
    ∧ g !! "type" = Some "disk".
Proof.
  assert (∃ devices device,
            convertStorageConfig Examples.host [] (mkmap ∅)
            = Some (devices, None)
            ∧ entries devices !! "mount0" = Some device)
    as (devices & device & Hrun & Hdevice).
  { vm_compute. do 2 eexists. split; reflexivity. }
  destruct (convertStorageConfig_disks Examples.host [] devices None "mount0"
              device Hrun Hdevice)
    as (g & source & mount & -> & Htype & _).
  exists devices, g. split; [exact Hrun|]. split; [exact Hdevice|exact Htype].
Defined.
